(** * WebRTC signaling relay and process controller

    A shallow embedding of [signaling/server.js] (the WebSocket relay between
    one sender and many viewers) and of [controller.js] (the HTTP controller
    that spawns the signaling server and the Python streamer), followed by
    the properties of the two state machines.

    Connections and child processes are JavaScript objects compared by
    identity; they are modelled by natural numbers.  The module-level
    variables [sender] and [viewers] form the registry, the closure variable
    [role] of each connection lives in a finite map next to the socket's
    [readyState].  Every handler returns the effects it performs
    ([ws.send], [console.log], [spawn], [kill], [res.json]) in program
    order. *)

From Stdlib Require Import Ascii.
From stdpp Require Import base option list gmap strings.

Set Warnings "-register-all".

(** ** JavaScript values *)

Module Js.

(** The values [JSON.parse] can return, and [undefined], which a property
    read can return.  A number is kept as its lexeme: the relay never looks
    at one.  An object is the list of its own properties, each key once. *)
Inductive JsVal : Type :=
| JUndefined
| JNull
| JBool (b : bool)
| JNum (lexeme : string)
| JStr (s : string)
| JArr (items : list JsVal)
| JObj (props : list (string * JsVal)).

Fixpoint own_prop (k : string) (props : list (string * JsVal)) : JsVal :=
  match props with
  | [] => JUndefined
  | (k', v) :: rest => if String.eqb k' k then v else own_prop k rest
  end.

(** [data.k] for a key [k] that no prototype defines ([type] and [role] are
    such keys): a [TypeError] on [null] and [undefined], rendered as [None];
    [undefined] on a primitive, on an array and on an object without the
    key. *)
Definition get_prop (data : JsVal) (k : string) : option JsVal :=
  match data with
  | JUndefined | JNull => None
  | JObj props => Some (own_prop k props)
  | JBool _ | JNum _ | JStr _ | JArr _ => Some JUndefined
  end.

(** [v === 'lit'] for a string literal. *)
Definition strict_eq (v : JsVal) (lit : string) : bool :=
  match v with
  | JStr s => String.eqb s lit
  | _ => false
  end.

(** The double quote character, and [JSON.stringify({ type: t })]. *)
Definition dquote : string := String "034"%char EmptyString.
Definition quoted (s : string) : string := dquote +:+ s +:+ dquote.
Definition stringify_type (t : string) : string :=
  "{" +:+ quoted "type" +:+ ":" +:+ quoted t +:+ "}".

End Js.

(** ** The signaling relay, [signaling/server.js] *)

Module Relay.
Import Js.

Definition Conn : Type := nat.

(** [ws.readyState]; [OPEN] is [WebSocket.OPEN]. *)
Inductive ReadyState : Type := CONNECTING | OPEN | CLOSING | CLOSED.

Definition is_OPEN (r : ReadyState) : bool :=
  match r with OPEN => true | _ => false end.

(** Per connection: the closure variable [role] and the socket state. *)
Record ConnState : Type := mkConn { role : JsVal; readyState : ReadyState }.

(** [let sender = null; const viewers = new Set()].  A JavaScript [Set]
    iterates in insertion order, hence a list; [set_add] and [set_delete]
    keep it free of duplicates. *)
Record Registry : Type := mkRegistry { sender : option Conn; viewers : list Conn }.

Record World : Type := mkWorld { registry : Registry; conns : gmap Conn ConnState }.

Inductive LogLine : Type :=
| LogClientConnected
| LogSenderConnected
| LogViewerConnected (total : nat)
| LogSenderDisconnected
| LogViewerDisconnected (total : nat).

Inductive Effect : Type :=
| Send (to : Conn) (payload : string)
| ConsoleLog (line : LogLine).

(** What a handler does: it returns, leaving [role], the registry and its
    effects, or an exception escapes it. *)
Inductive Outcome : Type :=
| Returned (role' : JsVal) (g' : Registry) (out : list Effect)
| Threw.

Definition sender_connected : string := stringify_type "sender-connected".
Definition sender_disconnected : string := stringify_type "sender-disconnected".

(** [viewers.add(ws)] *)
Definition set_add (ws : Conn) (s : list Conn) : list Conn :=
  if bool_decide (ws ∈ s) then s else s ++ [ws].

(** [viewers.delete(ws)]: whether [ws] was a member, and the set without
    it. *)
Definition set_delete (ws : Conn) (s : list Conn) : bool * list Conn :=
  (bool_decide (ws ∈ s), filter (λ v, v ≠ ws) s).

(** [c.readyState === WebSocket.OPEN] *)
Definition is_open (cs : gmap Conn ConnState) (c : Conn) : bool :=
  match cs !! c with
  | Some st => is_OPEN (readyState st)
  | None => false
  end.

(** [sender?.readyState === WebSocket.OPEN] *)
Definition sender_open (cs : gmap Conn ConnState) (g : Registry) : bool :=
  match sender g with
  | Some s => is_open cs s
  | None => false
  end.

(** [for (const v of vs) if (v.readyState === WebSocket.OPEN) v.send(msg)] *)
Fixpoint send_each_open (cs : gmap Conn ConnState) (vs : list Conn) (msg : string)
  : list Effect :=
  match vs with
  | [] => []
  | v :: rest =>
      (if is_open cs v then [Send v msg] else []) ++ send_each_open cs rest msg
  end.

Definition broadcastToViewers (cs : gmap Conn ConnState) (g : Registry) (msg : string)
  : list Effect :=
  send_each_open cs (viewers g) msg.

(** [sender.send(raw)], reached only when [sender_open] holds. *)
Definition send_to_sender (g : Registry) (raw : string) : list Effect :=
  match sender g with
  | Some s => [Send s raw]
  | None => []
  end.

Section Handlers.

(** [JSON.parse] is the host's; [None] stands for the [SyntaxError] it
    throws. *)
Variable JSON_parse : string → option JsVal.

(** The branch [if (data.type === 'role') { ... return; }], lines 22-35. *)
Definition declare_role (ws : Conn) (cs : gmap Conn ConnState) (g : Registry)
    (r : JsVal) : Outcome :=
  if strict_eq r "sender" then
    let g' := mkRegistry (Some ws) (viewers g) in
    Returned r g'
      (ConsoleLog LogSenderConnected :: broadcastToViewers cs g' sender_connected)
  else if strict_eq r "viewer" then
    let g' := mkRegistry (sender g) (set_add ws (viewers g)) in
    Returned r g'
      [ConsoleLog (LogViewerConnected (List.length (viewers g')));
       Send ws (match sender g' with
                | Some _ => sender_connected
                | None => sender_disconnected
                end)]
  else Returned r g [].

(** The relay rules, lines 37-45. *)
Definition relay (cs : gmap Conn ConnState) (g : Registry) (role0 ty : JsVal)
    (raw : string) : list Effect :=
  if strict_eq ty "offer" && strict_eq role0 "viewer" && sender_open cs g then
    send_to_sender g raw
  else if strict_eq ty "answer" && strict_eq role0 "sender" then
    send_each_open cs (viewers g) raw
  else if strict_eq ty "ice-candidate" then
    (if strict_eq role0 "viewer" && sender_open cs g
     then send_to_sender g raw else [])
    ++ (if strict_eq role0 "sender"
        then send_each_open cs (viewers g) raw else [])
  else [].

(** [ws.on('message', (raw) => ...)], for the connection [ws] whose closure
    holds [role0]. *)
Definition on_message (ws : Conn) (role0 : JsVal) (cs : gmap Conn ConnState)
    (g : Registry) (raw : string) : Outcome :=
  match JSON_parse raw with
  | None => Returned role0 g []
  | Some data =>
      match get_prop data "type" with
      | None => Threw
      | Some ty =>
          if strict_eq ty "role" then
            match get_prop data "role" with
            | None => Threw
            | Some r => declare_role ws cs g r
            end
          else Returned role0 g (relay cs g role0 ty raw)
      end
  end.

(** [ws.on('close', () => ...)] *)
Definition on_close (ws : Conn) (cs : gmap Conn ConnState) (g : Registry)
  : Registry * list Effect :=
  let '(g1, out1) :=
    if bool_decide (sender g = Some ws) then
      let g1 := mkRegistry None (viewers g) in
      (g1, ConsoleLog LogSenderDisconnected
             :: broadcastToViewers cs g1 sender_disconnected)
    else (g, []) in
  let '(was_viewer, vs) := set_delete ws (viewers g1) in
  if was_viewer then
    (mkRegistry (sender g1) vs, out1 ++ [ConsoleLog (LogViewerDisconnected (List.length vs))])
  else (mkRegistry (sender g1) vs, out1).

(** *** The event loop

    One event at a time.  [Connect] is [wss.on('connection')] for a new
    socket, [Message] the arrival of a frame on a socket that has not
    closed, [BeginClose] the start of the closing handshake (the socket
    leaves [OPEN]; no handler of the relay runs), [Close] the ['close']
    event, which the socket emits once it is [CLOSED]. *)
Inductive Event : Type :=
| Connect (c : Conn)
| Message (c : Conn) (raw : string)
| BeginClose (c : Conn)
| Close (c : Conn).

Definition init : World := mkWorld (mkRegistry None []) ∅.

Definition closed (r : ReadyState) : bool :=
  match r with CLOSED => true | _ => false end.

(** [None]: the event cannot happen in [w], or its handler throws (nothing
    catches it, the process ends). *)
Definition step (w : World) (e : Event) : option (World * list Effect) :=
  match e with
  | Connect c =>
      match conns w !! c with
      | Some _ => None
      | None =>
          Some (mkWorld (registry w) (<[c := mkConn (JStr "unknown") OPEN]> (conns w)),
                [ConsoleLog LogClientConnected])
      end
  | Message c raw =>
      match conns w !! c with
      | Some st =>
          if closed (readyState st) then None
          else
            match on_message c (role st) (conns w) (registry w) raw with
            | Returned r g out =>
                Some (mkWorld g (<[c := mkConn r (readyState st)]> (conns w)), out)
            | Threw => None
            end
      | None => None
      end
  | BeginClose c =>
      match conns w !! c with
      | Some st =>
          if is_OPEN (readyState st)
          then Some (mkWorld (registry w) (<[c := mkConn (role st) CLOSING]> (conns w)), [])
          else None
      | None => None
      end
  | Close c =>
      match conns w !! c with
      | Some st =>
          if closed (readyState st) then None
          else
            let cs := <[c := mkConn (role st) CLOSED]> (conns w) in
            let '(g, out) := on_close c cs (registry w) in
            Some (mkWorld g cs, out)
      | None => None
      end
  end.

(** Runs a trace from [w]; the effects of all events, in order. *)
Fixpoint run (w : World) (tr : list Event) : option (World * list Effect) :=
  match tr with
  | [] => Some (w, [])
  | e :: rest =>
      match step w e with
      | Some (w1, out1) =>
          match run w1 rest with
          | Some (w2, out2) => Some (w2, out1 ++ out2)
          | None => None
          end
      | None => None
      end
  end.

Definition reachable (tr : list Event) (w : World) : Prop :=
  ∃ out, run init tr = Some (w, out).

(** Whether [raw] is a role declaration: it parses and its [type] is
    ['role']. *)
Definition is_declaration (raw : string) : bool :=
  match JSON_parse raw with
  | Some data =>
      match get_prop data "type" with
      | Some ty => strict_eq ty "role"
      | None => false
      end
  | None => false
  end.

(** The number of role declarations [c] has sent in [tr]. *)
Fixpoint declarations (c : Conn) (tr : list Event) : nat :=
  match tr with
  | [] => 0
  | Message c' raw :: rest =>
      (if bool_decide (c' = c) && is_declaration raw then 1 else 0)
      + declarations c rest
  | _ :: rest => declarations c rest
  end.

End Handlers.

(** The [Send] effects among [out], as pairs of target and payload. *)
Fixpoint sends (out : list Effect) : list (Conn * string) :=
  match out with
  | [] => []
  | Send c m :: rest => (c, m) :: sends rest
  | ConsoleLog _ :: rest => sends rest
  end.

Definition role_of (w : World) (c : Conn) : option JsVal := role <$> conns w !! c.

End Relay.

(** ** The controller, [controller.js] (its text follows the quick start
    in [README.md]) *)

Module Supervisor.

(** A [ChildProcess] object, as [spawn] returns it. *)
Definition Proc : Type := nat.

(** [let signalingServer = null; let streamerProcess = null].  [spawned]
    counts the calls of [spawn] so far and names the next child. *)
Record State : Type := mkState {
  signalingServer : option Proc;
  streamerProcess : option Proc;
  spawned : nat
}.

Inductive LogLine : Type :=
| LogStartingSignaling
| LogSignalingExited (code : option nat)
| LogSignalingError (err : string)
| LogStoppingSignaling
| LogStartingStreamer
| LogStreamerExited (code : option nat)
| LogStreamerError (err : string)
| LogStoppingStreamer
| LogShuttingDown.

(** The bodies [res.json] sends. *)
Inductive Response : Type :=
| Reply (ok : bool) (status : string)
| Status (signaling streamer : bool).

Inductive Effect : Type :=
| Spawn (command : string) (args : list string) (child : Proc)
| Kill (child : Proc) (signal : string)
| ConsoleLog (line : LogLine)
| Respond (body : Response)
| ProcessExit (code : nat).

Definition boot : State := mkState None None 0.

(** [!!p] *)
Definition truthy (p : option Proc) : bool :=
  match p with Some _ => true | None => false end.

(** [function startSignalingServer()] *)
Definition startSignalingServer (s : State) : State * list Effect :=
  match signalingServer s with
  | Some _ => (s, [])
  | None =>
      let p := spawned s in
      (mkState (Some p) (streamerProcess s) (S (spawned s)),
       [ConsoleLog LogStartingSignaling; Spawn "node" ["signaling/server.js"] p])
  end.

(** [signalingServer.on('exit', (code) => ...)] *)
Definition signaling_on_exit (code : option nat) (s : State) : State * list Effect :=
  (mkState None (streamerProcess s) (spawned s),
   [ConsoleLog (LogSignalingExited code)]).

(** [signalingServer.on('error', (err) => ...)] *)
Definition signaling_on_error (err : string) (s : State) : State * list Effect :=
  (mkState None (streamerProcess s) (spawned s),
   [ConsoleLog (LogSignalingError err)]).

(** [function stopSignalingServer()] *)
Definition stopSignalingServer (s : State) : State * list Effect :=
  match signalingServer s with
  | Some p =>
      (mkState None (streamerProcess s) (spawned s),
       [ConsoleLog LogStoppingSignaling; Kill p "SIGINT"])
  | None => (s, [])
  end.

(** [app.post('/start', ...)] *)
Definition post_start (s : State) : State * list Effect :=
  match streamerProcess s with
  | Some _ => (s, [Respond (Reply true "already-running")])
  | None =>
      let p := spawned s in
      (mkState (signalingServer s) (Some p) (S (spawned s)),
       [ConsoleLog LogStartingStreamer;
        Spawn "python3" ["src/webrtc_streamer.py"] p;
        Respond (Reply true "started")])
  end.

(** [streamerProcess.on('exit', (code) => ...)] *)
Definition streamer_on_exit (code : option nat) (s : State) : State * list Effect :=
  (mkState (signalingServer s) None (spawned s),
   [ConsoleLog (LogStreamerExited code)]).

(** [streamerProcess.on('error', (err) => ...)]: what a failed spawn
    triggers, some time after [spawn] has returned the child object. *)
Definition streamer_on_error (err : string) (s : State) : State * list Effect :=
  (mkState (signalingServer s) None (spawned s),
   [ConsoleLog (LogStreamerError err)]).

(** [app.post('/stop', ...)] *)
Definition post_stop (s : State) : State * list Effect :=
  match streamerProcess s with
  | None => (s, [Respond (Reply true "not-running")])
  | Some p =>
      (mkState (signalingServer s) None (spawned s),
       [ConsoleLog LogStoppingStreamer; Kill p "SIGINT";
        Respond (Reply true "stopping")])
  end.

(** [app.get('/status', ...)] *)
Definition get_status (s : State) : State * list Effect :=
  (s, [Respond (Status (truthy (signalingServer s)) (truthy (streamerProcess s)))]).

(** [process.on('SIGINT', ...)] and [process.on('SIGTERM', ...)], which
    have the same body. *)
Definition on_shutdown (s : State) : State * list Effect :=
  let kill_streamer :=
    match streamerProcess s with
    | Some p => [Kill p "SIGINT"]
    | None => []
    end in
  let '(s', out) := stopSignalingServer s in
  (s', ConsoleLog LogShuttingDown :: kill_streamer ++ out ++ [ProcessExit 0]).

(** The events the controller reacts to once it has booted. *)
Inductive Event : Type :=
| PostStart
| PostStop
| GetStatus
| StreamerExit (code : option nat)
| StreamerError (err : string)
| SignalingExit (code : option nat)
| SignalingError (err : string)
| Shutdown.

Definition handle (s : State) (e : Event) : State * list Effect :=
  match e with
  | PostStart => post_start s
  | PostStop => post_stop s
  | GetStatus => get_status s
  | StreamerExit code => streamer_on_exit code s
  | StreamerError err => streamer_on_error err s
  | SignalingExit code => signaling_on_exit code s
  | SignalingError err => signaling_on_error err s
  | Shutdown => on_shutdown s
  end.

Fixpoint handle_all (s : State) (es : list Event) : State * list Effect :=
  match es with
  | [] => (s, [])
  | e :: rest =>
      let '(s1, out1) := handle s e in
      let '(s2, out2) := handle_all s1 rest in
      (s2, out1 ++ out2)
  end.

(** The bodies sent, and the children spawned, among the effects. *)
Fixpoint responses (out : list Effect) : list Response :=
  match out with
  | [] => []
  | Respond r :: rest => r :: responses rest
  | _ :: rest => responses rest
  end.

Fixpoint spawns (out : list Effect) : list Proc :=
  match out with
  | [] => []
  | Spawn _ _ p :: rest => p :: spawns rest
  | _ :: rest => spawns rest
  end.

End Supervisor.

(** ** The frames of the scenarios *)

Module Frames.
Import Js.

Definition field (k v : string) : string := quoted k +:+ ":" +:+ quoted v.

(** [{"type":"role","role":"sender"}] and [{"type":"role","role":"viewer"}] *)
Definition role_sender : string := "{" +:+ field "type" "role" +:+ "," +:+ field "role" "sender" +:+ "}".
Definition role_viewer : string := "{" +:+ field "type" "role" +:+ "," +:+ field "role" "viewer" +:+ "}".
(** [{"type":"role","role":"unknown"}] *)
Definition role_unknown : string := "{" +:+ field "type" "role" +:+ "," +:+ field "role" "unknown" +:+ "}".
(** [{"type":"offer","sdp":"X"}], [{"type":"answer","sdp":"Y"}] and
    [{"type":"ice-candidate","candidate":"Z"}] *)
Definition offer : string := "{" +:+ field "type" "offer" +:+ "," +:+ field "sdp" "X" +:+ "}".
Definition answer : string := "{" +:+ field "type" "answer" +:+ "," +:+ field "sdp" "Y" +:+ "}".
Definition ice : string := "{" +:+ field "type" "ice-candidate" +:+ "," +:+ field "candidate" "Z" +:+ "}".
(** A frame that is not JSON, and the frame [null]. *)
Definition garbage : string := "not json".
Definition null : string := "null".

(** [JSON.parse] on the frames above: each with the value [JSON.parse]
    returns on it, [garbage] with the [SyntaxError].  The table serves the
    concrete runs below, which use no other frame. *)
Definition table : list (string * option JsVal) :=
  [ (role_sender, Some (JObj [("type", JStr "role"); ("role", JStr "sender")]));
    (role_viewer, Some (JObj [("type", JStr "role"); ("role", JStr "viewer")]));
    (role_unknown, Some (JObj [("type", JStr "role"); ("role", JStr "unknown")]));
    (offer, Some (JObj [("type", JStr "offer"); ("sdp", JStr "X")]));
    (answer, Some (JObj [("type", JStr "answer"); ("sdp", JStr "Y")]));
    (ice, Some (JObj [("type", JStr "ice-candidate"); ("candidate", JStr "Z")]));
    (null, Some JNull);
    (garbage, None) ].

Fixpoint lookup_frame (raw : string) (t : list (string * option JsVal)) : option JsVal :=
  match t with
  | [] => None
  | (f, v) :: rest => if String.eqb f raw then v else lookup_frame raw rest
  end.

Definition parse (raw : string) : option JsVal := lookup_frame raw table.

End Frames.

(** ** Statements about the relay *)

Module RelaySpec.
Import Js Relay.

(** [c] is in the sender slot or in the viewer set. *)
Definition registered (w : World) (c : Conn) : Prop :=
  sender (registry w) = Some c ∨ c ∈ viewers (registry w).

(** The registry invariant: one sender at most, never a viewer too, and no
    connection of role ['unknown'] registered. *)
Definition registry_exclusive (w : World) : Prop :=
  (∀ c1 c2, sender (registry w) = Some c1 → sender (registry w) = Some c2 → c1 = c2)
  ∧ (∀ c, ¬ (sender (registry w) = Some c ∧ c ∈ viewers (registry w)))
  ∧ (∀ c, role_of w c = Some (JStr "unknown") →
          sender (registry w) ≠ Some c ∧ c ∉ viewers (registry w)).

(** The notification a joining viewer gets when the sender's socket state
    is taken into account: ['sender-connected'] if there is a sender and
    its connection is open. *)
Definition notice_if_sender_open (cs : gmap Conn ConnState) (g : Registry) : string :=
  if sender_open cs g then sender_connected else sender_disconnected.

(** The notification [declare_role] sends: it tests the slot alone. *)
Definition notice_if_sender_set (g : Registry) : string :=
  match sender g with
  | Some _ => sender_connected
  | None => sender_disconnected
  end.

(** The registry after a declaration of [r] by [c]. *)
Definition register_as (c : Conn) (r : JsVal) (g : Registry) : Registry :=
  if strict_eq r "sender" then mkRegistry (Some c) (viewers g)
  else if strict_eq r "viewer" then mkRegistry (sender g) (set_add c (viewers g))
  else g.

(** [msg] sent once to each member of [vs], in order. *)
Definition to_each (vs : list Conn) (msg : string) : list (Conn * string) :=
  (λ v, (v, msg)) <$> vs.

(** The members of [vs] whose socket is open. *)
Definition open_among (cs : gmap Conn ConnState) (vs : list Conn) : list Conn :=
  filter (λ v, is_open cs v) vs.

Section Invariants.

Variable JSON_parse : string → option JsVal.

(** What holds after every run: the viewer set has no duplicates, a
    registered connection exists, has not closed and has declared a role,
    and a connection that has declared none still has role ['unknown']. *)
Definition well_formed (tr : list Event) (w : World) : Prop :=
  NoDup (viewers (registry w))
  ∧ (∀ c, registered w c →
          ∃ st, conns w !! c = Some st ∧ closed (readyState st) = false
                ∧ 1 ≤ declarations JSON_parse c tr)
  ∧ (∀ c st, conns w !! c = Some st → declarations JSON_parse c tr = 0 →
             role st = JStr "unknown").

(** What holds when no connection declares twice: a registered
    connection has the role it is registered under. *)
Definition roles_bound (w : World) : Prop :=
  (∀ c, sender (registry w) = Some c → role_of w c = Some (JStr "sender"))
  ∧ (∀ c, c ∈ viewers (registry w) → role_of w c = Some (JStr "viewer")).

End Invariants.

(** *** Concrete runs *)

(** A sender 0 and a viewer 1, both open. *)
Definition pair_trace : list Event :=
  [Connect 0; Connect 1; Message 0 Frames.role_sender; Message 1 Frames.role_viewer].
Definition pair_world : World :=
  mkWorld (mkRegistry (Some 0) [1])
    (<[1 := mkConn (JStr "viewer") OPEN]> (<[0 := mkConn (JStr "sender") OPEN]> ∅)).

(** Connection 0 declares viewer, then declares sender. *)
Definition redeclare_trace : list Event :=
  [Connect 0; Message 0 Frames.role_viewer; Message 0 Frames.role_sender].
Definition redeclare_world : World :=
  mkWorld (mkRegistry (Some 0) [0]) (<[0 := mkConn (JStr "sender") OPEN]> ∅).

Definition viewer_world : World :=
  mkWorld (mkRegistry None [0]) (<[0 := mkConn (JStr "viewer") OPEN]> ∅).

(** The sender 0 has begun to close when connection 1 arrives. *)
Definition closing_trace : list Event :=
  [Connect 0; Message 0 Frames.role_sender; BeginClose 0; Connect 1].
Definition closing_world : World :=
  mkWorld (mkRegistry (Some 0) [])
    (<[1 := mkConn (JStr "unknown") OPEN]> (<[0 := mkConn (JStr "sender") CLOSING]> ∅)).

(** Viewer 1, and connection 0 registered both as viewer and as sender. *)
Definition overlap_trace : list Event :=
  [Connect 0; Connect 1; Message 1 Frames.role_viewer;
   Message 0 Frames.role_viewer; Message 0 Frames.role_sender].
Definition overlap_world : World :=
  mkWorld (mkRegistry (Some 0) [1; 0])
    (<[1 := mkConn (JStr "viewer") OPEN]> (<[0 := mkConn (JStr "sender") OPEN]> ∅)).

(** Connection 0 declares viewer, then declares the role ['unknown']. *)
Definition relapse_trace : list Event :=
  [Connect 0; Message 0 Frames.role_viewer; Message 0 Frames.role_unknown].
Definition relapse_world : World :=
  mkWorld (mkRegistry None [0]) (<[0 := mkConn (JStr "unknown") OPEN]> ∅).

(** Two connections that have declared nothing. *)
Definition fresh_trace : list Event := [Connect 0; Connect 1].
Definition fresh_world : World :=
  mkWorld (mkRegistry None [])
    (<[1 := mkConn (JStr "unknown") OPEN]> (<[0 := mkConn (JStr "unknown") OPEN]> ∅)).

End RelaySpec.

(** ** Further frames and runs of the relay *)

Module MoreFrames.
Import Js.

(** [{"type":"role"}], a declaration without a role; [{"type":"ping"}], a
    type the relay does not know; [42], JSON that is no object. *)
Definition bare_role : string := "{" +:+ Frames.field "type" "role" +:+ "}".
Definition ping : string := "{" +:+ Frames.field "type" "ping" +:+ "}".
Definition number : string := "42".

(** [JSON.parse] on these frames and on those of [Frames]. *)
Definition table : list (string * option JsVal) :=
  [ (bare_role, Some (JObj [("type", JStr "role")]));
    (ping, Some (JObj [("type", JStr "ping")]));
    (number, Some (JNum "42")) ]
  ++ Frames.table.

Definition parse (raw : string) : option JsVal := Frames.lookup_frame raw table.

End MoreFrames.

Module RelayMore.
Import Js Relay.

(** Viewer 1 waits; connection 0 has declared nothing yet. *)
Definition waiting_trace : list Event :=
  [Connect 0; Connect 1; Message 1 Frames.role_viewer].
Definition waiting_world : World :=
  mkWorld (mkRegistry None [1])
    (<[1 := mkConn (JStr "viewer") OPEN]> (<[0 := mkConn (JStr "unknown") OPEN]> ∅)).

(** Connection 0 has sent a declaration without a role: its [role] is
    [undefined]. *)
Definition roleless_trace : list Event :=
  [Connect 0; Message 0 MoreFrames.bare_role].
Definition roleless_world : World :=
  mkWorld (mkRegistry None []) (<[0 := mkConn JUndefined OPEN]> ∅).

(** Sender 0 was displaced by sender 2; viewer 1 is open. *)
Definition displaced_trace : list Event :=
  [Connect 0; Connect 1; Connect 2; Message 0 Frames.role_sender;
   Message 1 Frames.role_viewer; Message 2 Frames.role_sender].
Definition displaced_world : World :=
  mkWorld (mkRegistry (Some 2) [1])
    (<[2 := mkConn (JStr "sender") OPEN]>
       (<[1 := mkConn (JStr "viewer") OPEN]>
          (<[0 := mkConn (JStr "sender") OPEN]> ∅))).

(** [ty] is one of the four types the relay tests for. *)
Definition known_type (ty : JsVal) : bool :=
  strict_eq ty "role" || strict_eq ty "offer" || strict_eq ty "answer"
  || strict_eq ty "ice-candidate".

(** [data] is JSON on which [data.type] can be read and is none of the
    four: a number, a string, a boolean, an array, or an object with
    another [type] or without one. *)
Definition untyped (data : JsVal) : bool :=
  match data with
  | JUndefined | JNull => false
  | JObj props => negb (known_type (own_prop "type" props))
  | JBool _ | JNum _ | JStr _ | JArr _ => true
  end.

End RelayMore.

(** ** Statements about the controller *)

Module SupervisorSpec.
Import Supervisor.

(** The children signalled, with the signal, and the commands spawned,
    among the effects. *)
Fixpoint kills (out : list Effect) : list (Proc * string) :=
  match out with
  | [] => []
  | Kill p sig :: rest => (p, sig) :: kills rest
  | _ :: rest => kills rest
  end.

Fixpoint spawn_commands (out : list Effect) : list (string * list string) :=
  match out with
  | [] => []
  | Spawn cmd args _ :: rest => (cmd, args) :: spawn_commands rest
  | _ :: rest => spawn_commands rest
  end.

(** The events that are HTTP requests. *)
Definition is_request (e : Event) : bool :=
  match e with
  | PostStart | PostStop | GetStatus => true
  | _ => false
  end.

(** [process.exit(0)] ends the controller: of a sequence of events, those
    up to the first shutdown signal are handled. *)
Fixpoint until_shutdown (es : list Event) : list Event :=
  match es with
  | [] => []
  | Shutdown :: _ => [Shutdown]
  | e :: rest => e :: until_shutdown rest
  end.

Definition serve (s : State) (es : list Event) : State * list Effect :=
  handle_all s (until_shutdown es).

(** The controller after [startSignalingServer()] at start-up. *)
Definition booted : State := (startSignalingServer boot).1.

(** [p] is the child one of the two variables holds. *)
Definition tracked (s : State) (p : Proc) : Prop :=
  signalingServer s = Some p ∨ streamerProcess s = Some p.

(** The variables hold children that were spawned, and not the same
    one. *)
Definition well_tracked (s : State) : Prop :=
  (∀ p, tracked s p → p < spawned s)
  ∧ (∀ p q, signalingServer s = Some p → streamerProcess s = Some q → p ≠ q).

End SupervisorSpec.

(** * Properties of the relay *)

Import Js Relay RelaySpec.
Import RelayMore.

Section ConcreteRuns.

(** The worlds named in [RelaySpec] are where their traces lead. *)
Lemma pair_reachable : reachable Frames.parse pair_trace pair_world.
Proof. eexists. vm_compute. reflexivity. Qed.

Lemma redeclare_reachable : reachable Frames.parse redeclare_trace redeclare_world.
Proof. eexists. vm_compute. reflexivity. Qed.


Lemma closing_reachable : reachable Frames.parse closing_trace closing_world.
Proof. eexists. vm_compute. reflexivity. Qed.

Lemma overlap_reachable : reachable Frames.parse overlap_trace overlap_world.
Proof. eexists. vm_compute. reflexivity. Qed.

Lemma relapse_reachable : reachable Frames.parse relapse_trace relapse_world.
Proof. eexists. vm_compute. reflexivity. Qed.

End ConcreteRuns.

Section RelayFacts.

(** [JSON.parse] is arbitrary: what follows holds of every parser. *)
Variable JSON_parse : string → option JsVal.

Local Abbreviation step := (Relay.step JSON_parse).
Local Abbreviation run := (Relay.run JSON_parse).
Local Abbreviation reachable := (Relay.reachable JSON_parse).
Local Abbreviation on_message := (Relay.on_message JSON_parse).
Local Abbreviation declarations := (Relay.declarations JSON_parse).
Local Abbreviation is_declaration := (Relay.is_declaration JSON_parse).
Local Abbreviation well_formed := (RelaySpec.well_formed JSON_parse).

(** ** Sets as duplicate-free lists *)

Lemma set_add_elem ws v s : v ∈ set_add ws s ↔ v = ws ∨ v ∈ s.
Proof.
  unfold set_add. case_bool_decide as Hin.
  - split; [auto | intros [-> | ?]; auto].
  - rewrite elem_of_app, list_elem_of_singleton. tauto.
Qed.

Lemma set_add_NoDup ws s : NoDup s → NoDup (set_add ws s).
Proof.
  intros Hnd. unfold set_add. case_bool_decide as Hin; [done |].
  apply NoDup_app. split_and!; [done | | apply NoDup_singleton].
  intros x Hx ->%list_elem_of_singleton. done.
Qed.


Lemma set_delete_absent ws s : ws ∉ s → set_delete ws s = (false, s).
Proof.
  intros Hout. unfold set_delete. rewrite bool_decide_eq_false_2 by done.
  f_equal. induction s as [| x s IH]; [done |].
  rewrite filter_cons. rewrite not_elem_of_cons in Hout. destruct Hout as [Hne Hout].
  rewrite decide_True by congruence. by rewrite IH.
Qed.

(** ** The broadcast loop *)

Lemma send_each_open_filter cs vs msg :
  send_each_open cs vs msg = (λ v, Send v msg) <$> filter (λ v, is_open cs v) vs.
Proof.
  induction vs as [| v vs IH]; [done |].
  simpl. rewrite filter_cons, IH.
  destruct (decide (is_open cs v)) as [Ho | Ho]; destruct (is_open cs v); done.
Qed.

Lemma sends_fmap_Send (vs : list Conn) msg :
  sends ((λ v, Send v msg) <$> vs) = (λ v, (v, msg)) <$> vs.
Proof. induction vs as [| v vs IH]; [done |]. rewrite !fmap_cons. simpl. by f_equal. Qed.

Lemma sends_app out1 out2 : sends (out1 ++ out2) = sends out1 ++ sends out2.
Proof.
  induction out1 as [| [c m | l] out1 IH]; simpl; [done | by rewrite IH | done].
Qed.

(** ** Strict equality with a literal *)

Lemma strict_eq_true v lit : strict_eq v lit = true ↔ v = JStr lit.
Proof.
  destruct v; simpl; try (split; [discriminate | congruence]).
  rewrite String.eqb_eq. split; congruence.
Qed.

Lemma strict_eq_false v lit : strict_eq v lit = false ↔ v ≠ JStr lit.
Proof.
  rewrite <- strict_eq_true. destruct (strict_eq v lit); split; congruence.
Qed.

(** ** Steps of the event loop *)

Lemma world_same w c st :
  conns w !! c = Some st →
  mkWorld (registry w) (<[c := mkConn (role st) (readyState st)]> (conns w)) = w.
Proof.
  intros Hc. destruct w as [g cs], st as [r s]; simpl in *. by rewrite insert_id.
Qed.

Lemma step_message w c st raw :
  conns w !! c = Some st → closed (readyState st) = false →
  step w (Message c raw) =
    match on_message c (role st) (conns w) (registry w) raw with
    | Returned r g out =>
        Some (mkWorld g (<[c := mkConn r (readyState st)]> (conns w)), out)
    | Threw => None
    end.
Proof. intros Hc Hcl. simpl. by rewrite Hc, Hcl. Qed.

(** A message that is no declaration leaves the world as it is and has
    the effects of [relay]. *)
Lemma step_relay w c st raw data ty :
  conns w !! c = Some st → closed (readyState st) = false →
  JSON_parse raw = Some data → get_prop data "type" = Some ty →
  ty ≠ JStr "role" →
  step w (Message c raw) =
    Some (w, relay (conns w) (registry w) (role st) ty raw).
Proof.
  intros Hc Hcl Hp Hty Hne. rewrite (step_message _ _ _ _ Hc Hcl).
  unfold Relay.on_message. rewrite Hp, Hty.
  apply strict_eq_false in Hne. rewrite Hne. by rewrite (world_same _ _ _ Hc).
Qed.

(** A declaration binds [role] to [data.role] and goes through
    [declare_role]. *)
Lemma step_declaration w c st raw data r :
  conns w !! c = Some st → closed (readyState st) = false →
  JSON_parse raw = Some data → get_prop data "type" = Some (JStr "role") →
  get_prop data "role" = Some r →
  step w (Message c raw) =
    match declare_role c (conns w) (registry w) r with
    | Returned r' g out =>
        Some (mkWorld g (<[c := mkConn r' (readyState st)]> (conns w)), out)
    | Threw => None
    end.
Proof.
  intros Hc Hcl Hp Hty Hr. rewrite (step_message _ _ _ _ Hc Hcl).
  unfold Relay.on_message. by rewrite Hp, Hty, Hr.
Qed.

Lemma run_app w tr1 tr2 :
  run w (tr1 ++ tr2) =
    match run w tr1 with
    | Some (w1, out1) =>
        match run w1 tr2 with
        | Some (w2, out2) => Some (w2, out1 ++ out2)
        | None => None
        end
    | None => None
    end.
Proof.
  revert w. induction tr1 as [| e tr1 IH]; intros w; simpl.
  - destruct (Relay.run JSON_parse w tr2) as [[w2 out2] |]; done.
  - destruct (Relay.step JSON_parse w e) as [[w1 out1] |]; [| done].
    rewrite IH. destruct (Relay.run JSON_parse w1 tr1) as [[w2 out2] |]; [| done].
    destruct (Relay.run JSON_parse w2 tr2) as [[w3 out3] |]; [| done].
    by rewrite app_assoc.
Qed.

Lemma reachable_snoc tr w e w' out :
  reachable tr w → step w e = Some (w', out) → reachable (tr ++ [e]) w'.
Proof.
  intros [out0 Hrun] Hstep. exists (out0 ++ out ++ []).
  rewrite run_app, Hrun. simpl. by rewrite Hstep.
Qed.

(** Induction over the events of a run, last event last. *)
Lemma reachable_rev_ind (P : list Event → World → Prop) :
  P [] init →
  (∀ tr w e w' out,
     reachable tr w → P tr w → step w e = Some (w', out) → P (tr ++ [e]) w') →
  ∀ tr w, reachable tr w → P tr w.
Proof.
  intros Hinit Hstep tr. induction tr as [| e tr IH] using rev_ind; intros w [out Hrun].
  - simpl in Hrun. by simplify_eq.
  - rewrite run_app in Hrun.
    destruct (Relay.run JSON_parse init tr) as [[w1 out1] |] eqn:Hrun1; [| done].
    simpl in Hrun. destruct (Relay.step JSON_parse w1 e) as [[w2 out2] |] eqn:Hs; [| done].
    simplify_eq. eapply Hstep; [by exists out1 | apply IH; by exists out1 | done].
Qed.


(** ** What one event does *)

Lemma declare_role_returns c cs g r :
  declare_role c cs g r =
    Returned r (register_as c r g)
      (if strict_eq r "sender" then
         ConsoleLog LogSenderConnected
           :: send_each_open cs (viewers g) sender_connected
       else if strict_eq r "viewer" then
         [ConsoleLog (LogViewerConnected (List.length (set_add c (viewers g))));
          Send c (notice_if_sender_set g)]
       else []).
Proof.
  unfold declare_role, register_as, notice_if_sender_set, broadcastToViewers.
  destruct (strict_eq r "sender"); [done |]. by destruct (strict_eq r "viewer").
Qed.

Lemma on_message_inv c role0 cs g raw r g' out :
  on_message c role0 cs g raw = Returned r g' out →
  (is_declaration raw = false ∧ r = role0 ∧ g' = g)
  ∨ (is_declaration raw = true ∧ g' = register_as c r g).
Proof.
  unfold Relay.on_message, Relay.is_declaration.
  destruct (JSON_parse raw) as [data |]; [| intros; simplify_eq; by left].
  destruct (get_prop data "type") as [ty |]; [| done].
  destruct (strict_eq ty "role").
  - destruct (get_prop data "role") as [r0 |]; [| done].
    rewrite declare_role_returns. intros; simplify_eq. by right.
  - intros; simplify_eq. by left.
Qed.

Lemma on_close_registry c cs g :
  (on_close c cs g).1 =
    mkRegistry (if bool_decide (sender g = Some c) then None else sender g)
               (filter (λ v, v ≠ c) (viewers g)).
Proof.
  unfold on_close. case_bool_decide; simpl; by destruct (bool_decide _).
Qed.

Lemma on_close_sends c cs g :
  sends (on_close c cs g).2 =
    if bool_decide (sender g = Some c)
    then to_each (open_among cs (viewers g)) sender_disconnected
    else [].
Proof.
  unfold on_close, broadcastToViewers, to_each, open_among.
  case_bool_decide; simpl; destruct (bool_decide _); simpl;
    rewrite ?sends_app, ?send_each_open_filter, ?sends_fmap_Send; simpl;
    by rewrite ?app_nil_r.
Qed.

Lemma step_inv w e w' out :
  step w e = Some (w', out) →
  match e with
  | Connect c =>
      conns w !! c = None
      ∧ w' = mkWorld (registry w) (<[c := mkConn (JStr "unknown") OPEN]> (conns w))
  | Message c raw =>
      ∃ st r g,
        conns w !! c = Some st ∧ closed (readyState st) = false
        ∧ on_message c (role st) (conns w) (registry w) raw = Returned r g out
        ∧ w' = mkWorld g (<[c := mkConn r (readyState st)]> (conns w))
  | BeginClose c =>
      ∃ st,
        conns w !! c = Some st ∧ closed (readyState st) = false
        ∧ w' = mkWorld (registry w) (<[c := mkConn (role st) CLOSING]> (conns w))
  | Close c =>
      ∃ st,
        conns w !! c = Some st ∧ closed (readyState st) = false
        ∧ w' = mkWorld (on_close c (<[c := mkConn (role st) CLOSED]> (conns w)) (registry w)).1
                       (<[c := mkConn (role st) CLOSED]> (conns w))
        ∧ out = (on_close c (<[c := mkConn (role st) CLOSED]> (conns w)) (registry w)).2
  end.
Proof.
  destruct e as [c | c raw | c | c]; simpl;
    destruct (conns w !! c) as [st |] eqn:Hc; try done.
  - intros; by simplify_eq.
  - destruct (closed (readyState st)) eqn:Hcl; [done |].
    destruct (Relay.on_message _ _ _ _ _ _) as [r g o |] eqn:Hm; [| done].
    intros; simplify_eq. by exists st, r, g.
  - destruct (readyState st) eqn:Hrs; simpl; try done.
    intros; simplify_eq. exists st. by rewrite Hrs.
  - destruct (closed (readyState st)) eqn:Hcl; [done |].
    destruct (on_close _ _ _) as [g o] eqn:Hoc.
    intros; simplify_eq. exists st. by rewrite Hoc.
Qed.

Lemma declarations_snoc c tr e :
  declarations c (tr ++ [e]) =
    declarations c tr
    + match e with
      | Message c' raw => if bool_decide (c' = c) && is_declaration raw then 1 else 0
      | _ => 0
      end.
Proof.
  induction tr as [| e0 tr IH]; simpl.
  - destruct e; simpl; lia.
  - rewrite IH. destruct e0; lia.
Qed.

Lemma declarations_snoc_le c tr e : declarations c tr ≤ declarations c (tr ++ [e]).
Proof. rewrite declarations_snoc. lia. Qed.

Lemma register_as_registered c r g c' :
  sender (register_as c r g) = Some c' ∨ c' ∈ viewers (register_as c r g) →
  c' = c ∨ sender g = Some c' ∨ c' ∈ viewers g.
Proof.
  unfold register_as.
  destruct (strict_eq r "sender"); [| destruct (strict_eq r "viewer")]; simpl;
    rewrite ?set_add_elem; intros [? | ?]; simplify_eq; tauto.
Qed.

Lemma register_as_NoDup c r g : NoDup (viewers g) → NoDup (viewers (register_as c r g)).
Proof.
  unfold register_as.
  destruct (strict_eq r "sender"); [| destruct (strict_eq r "viewer")]; simpl;
    auto using set_add_NoDup.
Qed.

(** ** The invariant of every run *)

Lemma reachable_well_formed tr w : reachable tr w → well_formed tr w.
Proof.
  revert tr w. apply reachable_rev_ind.
  { split_and!; [constructor | | done].
    intros c [Hs | Hv]; simpl in *; [done | by apply elem_of_nil in Hv]. }
  intros tr w e w' out _ (Hnd & Hreg & Hunk) Hstep.
  apply step_inv in Hstep. unfold RelaySpec.well_formed, registered in *.
  destruct e as [c | c raw | c | c].
  - destruct Hstep as [Hfresh ->]; simpl. split_and!; [done | |].
    + intros c' Hc'. destruct (Hreg c' Hc') as (st & Hst & Hcl & Hd).
      exists st. rewrite lookup_insert_ne by congruence.
      rewrite declarations_snoc. split_and!; [done | done | lia].
    + intros c' st. rewrite declarations_snoc, Nat.add_0_r.
      destruct (decide (c = c')) as [-> | Hne].
      * rewrite lookup_insert_eq. intros; by simplify_eq.
      * rewrite lookup_insert_ne by done. apply Hunk.
  - destruct Hstep as (st & r & g & Hc & Hcl & Hm & ->); simpl.
    apply on_message_inv in Hm as [(Hdecl & -> & ->) | (Hdecl & ->)].
    + split_and!; [done | |].
      * intros c' Hc'. destruct (Hreg c' Hc') as (st' & Hst' & Hcl' & Hd).
        rewrite declarations_snoc.
        destruct (decide (c = c')) as [-> | Hne].
        -- rewrite lookup_insert_eq. eexists; split_and!; [done | done | lia].
        -- rewrite lookup_insert_ne by done. exists st'. split_and!; [done | done | lia].
      * intros c' st'. rewrite declarations_snoc, Hdecl, andb_false_r, Nat.add_0_r.
        destruct (decide (c = c')) as [-> | Hne].
        -- rewrite lookup_insert_eq. intros ? Hd; simplify_eq; simpl. by eapply Hunk.
        -- rewrite lookup_insert_ne by done. apply Hunk.
    + split_and!; [by apply register_as_NoDup | |].
      * intros c' Hc'. apply register_as_registered in Hc'.
        rewrite declarations_snoc, Hdecl, andb_true_r.
        destruct (decide (c = c')) as [-> | Hne].
        -- rewrite lookup_insert_eq, bool_decide_eq_true_2 by done.
           eexists; split_and!; [done | done | lia].
        -- rewrite lookup_insert_ne by done.
           destruct Hc' as [-> | Hc']; [done |].
           destruct (Hreg c' Hc') as (st' & Hst' & Hcl' & Hd).
           exists st'. split_and!; [done | done | lia].
      * intros c' st'. rewrite declarations_snoc, Hdecl, andb_true_r.
        destruct (decide (c = c')) as [-> | Hne].
        -- rewrite bool_decide_eq_true_2 by done. lia.
        -- rewrite lookup_insert_ne, bool_decide_eq_false_2, Nat.add_0_r by done.
           apply Hunk.
  - destruct Hstep as (st & Hc & Hcl & ->); simpl. split_and!; [done | |].
    + intros c' Hc'. destruct (Hreg c' Hc') as (st' & Hst' & Hcl' & Hd).
      rewrite declarations_snoc.
      destruct (decide (c = c')) as [-> | Hne].
      * rewrite lookup_insert_eq. eexists; split_and!; [done | done | lia].
      * rewrite lookup_insert_ne by done. exists st'. split_and!; [done | done | lia].
    + intros c' st'. rewrite declarations_snoc, Nat.add_0_r.
      destruct (decide (c = c')) as [-> | Hne].
      * rewrite lookup_insert_eq. intros ? Hd; simplify_eq; simpl. by eapply Hunk.
      * rewrite lookup_insert_ne by done. apply Hunk.
  - destruct Hstep as (st & Hc & Hcl & -> & _); simpl. rewrite on_close_registry; simpl.
    split_and!; [by apply NoDup_filter | |].
    + intros c' Hc'.
      assert (c' ≠ c ∧ (sender (registry w) = Some c' ∨ c' ∈ viewers (registry w)))
        as [Hne Hold].
      { destruct Hc' as [Hs | Hv].
        - case_bool_decide; [done |]. split; [congruence | by left].
        - apply list_elem_of_filter in Hv as [? ?]. split; [done | by right]. }
      destruct (Hreg c' Hold) as (st' & Hst' & Hcl' & Hd).
      rewrite lookup_insert_ne by done. rewrite declarations_snoc.
      exists st'. split_and!; [done | done | lia].
    + intros c' st'. rewrite declarations_snoc, Nat.add_0_r.
      destruct (decide (c = c')) as [-> | Hne].
      * rewrite lookup_insert_eq. intros ? Hd; simplify_eq; simpl. by eapply Hunk.
      * rewrite lookup_insert_ne by done. apply Hunk.
Qed.

(** ** Runs in which no connection declares twice *)

Lemma role_of_insert_ne (g g' : Registry) cs c st c' :
  c ≠ c' → role_of (mkWorld g' (<[c := st]> cs)) c' = role_of (mkWorld g cs) c'.
Proof. intros Hne. unfold role_of; simpl. by rewrite lookup_insert_ne. Qed.

Lemma role_of_insert_same (g g' : Registry) cs c st st' c' :
  cs !! c = Some st → role st' = role st →
  role_of (mkWorld g' (<[c := st']> cs)) c' = role_of (mkWorld g cs) c'.
Proof.
  intros Hc Hr. unfold role_of; simpl.
  destruct (decide (c = c')) as [-> | Hne].
  - by rewrite lookup_insert_eq, Hc; simpl; rewrite Hr.
  - by rewrite lookup_insert_ne.
Qed.

Lemma register_as_sender c r g c' :
  sender (register_as c r g) = Some c' →
  (c' = c ∧ r = JStr "sender") ∨ (sender g = Some c').
Proof.
  unfold register_as. destruct (strict_eq r "sender") eqn:Hs.
  - apply strict_eq_true in Hs. simpl. intros; simplify_eq. by left.
  - destruct (strict_eq r "viewer"); simpl; auto.
Qed.

Lemma register_as_viewer c r g c' :
  c' ∈ viewers (register_as c r g) →
  (c' = c ∧ r = JStr "viewer") ∨ c' ∈ viewers g.
Proof.
  unfold register_as. destruct (strict_eq r "sender") eqn:Hs; [simpl; auto |].
  destruct (strict_eq r "viewer") eqn:Hv; [| simpl; auto].
  apply strict_eq_true in Hv. simpl. rewrite set_add_elem. intros [-> | ?]; auto.
Qed.

Lemma single_declaration_roles_bound tr w :
  reachable tr w → (∀ c, declarations c tr ≤ 1) → roles_bound w.
Proof.
  revert tr w.
  apply (reachable_rev_ind (λ tr w, (∀ c, declarations c tr ≤ 1) → roles_bound w)).
  { intros _. split; simpl; [done |]. intros c Hc. by apply elem_of_nil in Hc. }
  intros tr w e w' out Hreach IH Hstep Hle.
  assert (∀ c, declarations c tr ≤ 1) as Hle0.
  { intros c. etrans; [apply declarations_snoc_le | apply Hle]. }
  destruct (IH Hle0) as [Hs Hv].
  destruct (reachable_well_formed _ _ Hreach) as (_ & Hreg & _).
  apply step_inv in Hstep. destruct w as [g cs]. unfold registered in Hreg. simpl in *.
  destruct e as [c | c raw | c | c].
  - destruct Hstep as [Hfresh ->].
    assert (∀ c', sender g = Some c' ∨ c' ∈ viewers g → c ≠ c') as Hne.
    { intros c' Hc' ->. destruct (Hreg c' Hc') as (st & Hst & _). congruence. }
    split; simpl; intros c' Hc'.
    + rewrite (role_of_insert_ne g) by auto. by apply Hs.
    + rewrite (role_of_insert_ne g) by auto. by apply Hv.
  - destruct Hstep as (st & r & g' & Hc & Hcl & Hm & ->).
    apply on_message_inv in Hm as [(Hdecl & -> & ->) | (Hdecl & ->)].
    + split; simpl; intros c' Hc'.
      * rewrite (role_of_insert_same g _ _ _ st) by done. by apply Hs.
      * rewrite (role_of_insert_same g _ _ _ st) by done. by apply Hv.
    + assert (declarations c tr = 0) as Hzero.
      { specialize (Hle c). rewrite declarations_snoc, Hdecl in Hle.
        rewrite bool_decide_eq_true_2 in Hle by done. simpl in Hle. lia. }
      assert (∀ c', sender g = Some c' ∨ c' ∈ viewers g → c ≠ c') as Hne.
      { intros c' Hc' ->. destruct (Hreg c' Hc') as (st' & _ & _ & Hd). lia. }
      split; simpl; intros c' Hc'.
      * apply register_as_sender in Hc' as [[-> ->] | Hold].
        -- unfold role_of; simpl. by rewrite lookup_insert_eq.
        -- rewrite (role_of_insert_ne g) by auto. by apply Hs.
      * apply register_as_viewer in Hc' as [[-> ->] | Hold].
        -- unfold role_of; simpl. by rewrite lookup_insert_eq.
        -- rewrite (role_of_insert_ne g) by auto. by apply Hv.
  - destruct Hstep as (st & Hc & Hcl & ->).
    split; simpl; intros c' Hc'.
    + rewrite (role_of_insert_same g _ _ _ st) by done. by apply Hs.
    + rewrite (role_of_insert_same g _ _ _ st) by done. by apply Hv.
  - destruct Hstep as (st & Hc & Hcl & -> & _). rewrite on_close_registry.
    split; simpl; intros c' Hc'.
    + case_bool_decide; [done |].
      rewrite (role_of_insert_same g _ _ _ st) by done. by apply Hs.
    + apply list_elem_of_filter in Hc' as [_ Hc'].
      rewrite (role_of_insert_same g _ _ _ st) by done. by apply Hv.
Qed.

(** ** The claims *)

(** C1, as amended.  In every state reached by a run in which no
    connection sends more than one role declaration, the sender slot
    holds at most one connection, no connection is in the sender slot and
    in the viewer set at once, and a connection whose role is ['unknown']
    is in neither. *)
Theorem single_declaration_registry_exclusive tr w :
  reachable tr w → (∀ c, declarations c tr ≤ 1) → registry_exclusive w.
Proof.
  intros Hreach Hle.
  destruct (single_declaration_roles_bound _ _ Hreach Hle) as [Hs Hv].
  split_and!.
  - intros c1 c2 H1 H2. congruence.
  - intros c [Hc1 Hc2]. apply Hs in Hc1. apply Hv in Hc2. congruence.
  - intros c Hr. split.
    + intros Hc. apply Hs in Hc. congruence.
    + intros Hc. apply Hv in Hc. congruence.
Qed.

(** C2, as amended.  A declaration of role viewer makes the connection a
    viewer, adds it to the viewer set, and sends one notification, to that
    connection and to no other: ['sender-connected'] if the sender slot is
    filled, whatever the state of the sender's socket, and
    ['sender-disconnected'] if it is empty. *)
Theorem viewer_declaration_notice w c st raw data :
  conns w !! c = Some st → closed (readyState st) = false →
  JSON_parse raw = Some data →
  get_prop data "type" = Some (JStr "role") →
  get_prop data "role" = Some (JStr "viewer") →
  ∃ w' out,
    step w (Message c raw) = Some (w', out)
    ∧ sends out = [(c, notice_if_sender_set (registry w))]
    ∧ role_of w' c = Some (JStr "viewer")
    ∧ registry w' = mkRegistry (sender (registry w)) (set_add c (viewers (registry w))).
Proof.
  intros Hc Hcl Hp Hty Hr.
  rewrite (step_declaration _ _ _ _ _ _ Hc Hcl Hp Hty Hr), declare_role_returns.
  eexists _, _. split; [done |]. simpl. split_and!; [done | | done].
  unfold role_of; simpl. by rewrite lookup_insert_eq.
Qed.


(** C4.  An answer or an ice-candidate that arrives on a connection of
    role sender is sent, as the payload received, once to each viewer of
    the viewer set whose connection is open; nothing else is sent and
    nothing changes. *)
Theorem sender_payload_to_open_viewers tr w c st raw data ty :
  reachable tr w →
  conns w !! c = Some st → closed (readyState st) = false →
  role st = JStr "sender" →
  JSON_parse raw = Some data → get_prop data "type" = Some ty →
  ty = JStr "answer" ∨ ty = JStr "ice-candidate" →
  ∃ out,
    step w (Message c raw) = Some (w, out)
    ∧ out = (λ v, Send v raw) <$> open_among (conns w) (viewers (registry w))
    ∧ sends out = to_each (open_among (conns w) (viewers (registry w))) raw
    ∧ NoDup (open_among (conns w) (viewers (registry w))).
Proof.
  intros Hreach Hc Hcl Hrole Hp Hty Hkind.
  destruct (reachable_well_formed _ _ Hreach) as (Hnd & _ & _).
  assert (ty ≠ JStr "role") as Hne by (destruct Hkind; by subst).
  rewrite (step_relay _ _ _ _ _ _ Hc Hcl Hp Hty Hne), Hrole.
  assert (relay (conns w) (registry w) (JStr "sender") ty raw
          = (λ v, Send v raw) <$> open_among (conns w) (viewers (registry w))) as ->.
  { unfold relay, open_among. rewrite <- send_each_open_filter.
    destruct Hkind; subst; simpl; done. }
  eexists. split_and!; [done | done | apply sends_fmap_Send | by apply NoDup_filter].
Qed.

(** C5.  An offer or an ice-candidate that arrives on a connection of
    role viewer is sent, as the payload received, to the current sender
    when there is one and its connection is open; otherwise nothing is
    sent, to the originator neither.  Nothing changes. *)
Theorem viewer_payload_to_open_sender w c st raw data ty :
  conns w !! c = Some st → closed (readyState st) = false →
  role st = JStr "viewer" →
  JSON_parse raw = Some data → get_prop data "type" = Some ty →
  ty = JStr "offer" ∨ ty = JStr "ice-candidate" →
  ∃ out,
    step w (Message c raw) = Some (w, out)
    ∧ out = match sender (registry w) with
            | Some s => if is_open (conns w) s then [Send s raw] else []
            | None => []
            end.
Proof.
  intros Hc Hcl Hrole Hp Hty Hkind.
  assert (ty ≠ JStr "role") as Hne by (destruct Hkind; by subst).
  rewrite (step_relay _ _ _ _ _ _ Hc Hcl Hp Hty Hne), Hrole.
  eexists. split; [done |].
  unfold relay, sender_open, send_to_sender.
  destruct Hkind; subst; simpl;
    destruct (sender (registry w)) as [s |]; simpl; try done;
    destruct (is_open (conns w) s); done.
Qed.

(** C6.  An offer from a connection of role sender, an answer from a
    connection of role viewer, and a message of any type but ['role'] from
    a connection of role ['unknown'] are sent to nobody, the originator
    included, and change nothing. *)
Theorem inconsistent_message_dropped w c st raw data ty :
  conns w !! c = Some st → closed (readyState st) = false →
  JSON_parse raw = Some data → get_prop data "type" = Some ty →
  (ty = JStr "offer" ∧ role st = JStr "sender")
  ∨ (ty = JStr "answer" ∧ role st = JStr "viewer")
  ∨ (ty ≠ JStr "role" ∧ role st = JStr "unknown") →
  step w (Message c raw) = Some (w, []).
Proof.
  intros Hc Hcl Hp Hty Hcase.
  assert (ty ≠ JStr "role") as Hne.
  { destruct Hcase as [[-> _] | [[-> _] | [? _]]]; done. }
  rewrite (step_relay _ _ _ _ _ _ Hc Hcl Hp Hty Hne). do 2 f_equal.
  unfold relay.
  destruct Hcase as [[-> ->] | [[-> ->] | [_ ->]]]; simpl; [done | done |].
  rewrite !andb_false_r. by destruct (strict_eq ty "ice-candidate").
Qed.

(** Where [JSON.parse] throws, the [catch] returns: the frame is sent to
    nobody, the originator included, and changes nothing; registry, roles
    and socket states, that of the originator included, are as before.
    This is the part of the malformed frames the [try] covers. *)
Lemma unparseable_frame_dropped w c st raw :
  conns w !! c = Some st → closed (readyState st) = false →
  JSON_parse raw = None →
  step w (Message c raw) = Some (w, []).
Proof.
  intros Hc Hcl Hp. rewrite (step_message _ _ _ _ Hc Hcl).
  unfold Relay.on_message. rewrite Hp. by rewrite (world_same _ _ _ Hc).
Qed.

(** C8, as amended.  When a connection closes: if it is the current
    sender, the sender slot is cleared and each viewer whose connection is
    open gets ['sender-disconnected'] once; if it is in the viewer set, it
    is removed from it, and when it is not the current sender as well,
    nothing is sent; if it has never declared a role, its role is still
    ['unknown'], the registry is as before and nothing is sent. *)
Theorem close_updates_registry tr w c st :
  reachable tr w →
  conns w !! c = Some st → closed (readyState st) = false →
  ∃ w' out,
    step w (Close c) = Some (w', out)
    ∧ (∀ v, v ≠ c → is_open (conns w') v = is_open (conns w) v)
    ∧ is_open (conns w') c = false
    ∧ (sender (registry w) = Some c →
       sender (registry w') = None
       ∧ sends out = to_each (open_among (conns w') (viewers (registry w))) sender_disconnected
       ∧ NoDup (open_among (conns w') (viewers (registry w))))
    ∧ (c ∈ viewers (registry w) →
       (∀ v, v ∈ viewers (registry w') ↔ v ∈ viewers (registry w) ∧ v ≠ c)
       ∧ (sender (registry w) ≠ Some c →
          sender (registry w') = sender (registry w) ∧ sends out = []))
    ∧ (declarations c tr = 0 →
       role st = JStr "unknown" ∧ registry w' = registry w ∧ sends out = []).
Proof.
  intros Hreach Hc Hcl.
  destruct (reachable_well_formed _ _ Hreach) as (Hnd & Hreg & Hunk).
  simpl. rewrite Hc, Hcl.
  set (cs := <[c := mkConn (role st) CLOSED]> (conns w)).
  pose proof (on_close_registry c cs (registry w)) as Hg.
  pose proof (on_close_sends c cs (registry w)) as Hout.
  destruct (on_close c cs (registry w)) as [g out]. simpl in Hg, Hout. subst g.
  eexists _, _. split; [done |]. simpl. split_and!.
  - intros v Hne. unfold is_open, cs. by rewrite lookup_insert_ne.
  - unfold is_open, cs. by rewrite lookup_insert_eq.
  - intros Hs. rewrite Hout, !bool_decide_eq_true_2 by done.
    split_and!; [done | done | by apply NoDup_filter].
  - intros Hv. split.
    + intros v. rewrite list_elem_of_filter. tauto.
    + intros Hns. by rewrite Hout, !bool_decide_eq_false_2.
  - intros Hzero.
    assert (¬ registered w c) as Hnot.
    { intros Hregd. destruct (Hreg c Hregd) as (? & _ & _ & Hd). lia. }
    unfold registered in Hnot.
    split_and!.
    + by eapply Hunk.
    + rewrite bool_decide_eq_false_2 by tauto.
      assert (c ∉ viewers (registry w)) as Hv by tauto.
      pose proof (set_delete_absent _ _ Hv) as Hd. unfold set_delete in Hd.
      simplify_eq. destruct (registry w) as [s vs]; simpl in *. congruence.
    + rewrite Hout. by rewrite bool_decide_eq_false_2 by tauto.
Qed.

(** The frame [null] parses, and reading [data.type] on it throws: the
    handler does not return. *)
Lemma null_frame_throws c role0 cs g raw :
  JSON_parse raw = Some JNull → on_message c role0 cs g raw = Threw.
Proof. intros Hp. unfold Relay.on_message. by rewrite Hp. Qed.

(** ** Further properties: what a step sends, and to whom *)

Lemma sends_send_each_open cs vs msg t m :
  (t, m) ∈ sends (send_each_open cs vs msg) ↔ m = msg ∧ t ∈ vs ∧ is_open cs t = true.
Proof.
  rewrite send_each_open_filter, sends_fmap_Send, list_elem_of_fmap. split.
  - intros (v & Heq & Hv). simplify_eq. apply list_elem_of_filter in Hv as [Ho Hv].
    split_and!; [done | done | by apply Is_true_true].
  - intros (-> & Hv & Ho). exists t. split; [done |].
    apply list_elem_of_filter. split; [by apply Is_true_true | done].
Qed.

Lemma send_to_sender_inv cs g role0 raw t m :
  strict_eq role0 "viewer" && sender_open cs g = true →
  (t, m) ∈ sends (send_to_sender g raw) →
  m = raw ∧ is_open cs t = true ∧ role0 = JStr "viewer" ∧ sender g = Some t.
Proof.
  intros [Hrole Hopen]%andb_true_iff. apply strict_eq_true in Hrole.
  unfold sender_open, send_to_sender in *. destruct (sender g) as [s |]; simpl.
  - intros Hin%list_elem_of_singleton. by simplify_eq.
  - intros Hin. by apply elem_of_nil in Hin.
Qed.

Lemma send_to_viewers_inv cs g role0 raw t m :
  strict_eq role0 "sender" = true →
  (t, m) ∈ sends (send_each_open cs (viewers g) raw) →
  m = raw ∧ is_open cs t = true ∧ role0 = JStr "sender" ∧ t ∈ viewers g.
Proof. intros Hrole%strict_eq_true (-> & Hv & Ho)%sends_send_each_open. done. Qed.

Lemma relay_sends_inv cs g role0 ty raw t m :
  (t, m) ∈ sends (relay cs g role0 ty raw) →
  m = raw ∧ is_open cs t = true
  ∧ ((role0 = JStr "viewer" ∧ sender g = Some t)
     ∨ (role0 = JStr "sender" ∧ t ∈ viewers g)).
Proof.
  unfold relay.
  destruct (strict_eq ty "offer" && strict_eq role0 "viewer" && sender_open cs g) eqn:E1.
  { intros Hin. apply andb_true_iff in E1 as [[_ E1a]%andb_true_iff E1b].
    destruct (send_to_sender_inv cs g role0 raw t m) as (? & ? & ? & ?);
      [by rewrite E1a, E1b | done | auto]. }
  destruct (strict_eq ty "answer" && strict_eq role0 "sender") eqn:E2.
  { intros Hin. apply andb_true_iff in E2 as [_ E2].
    destruct (send_to_viewers_inv _ _ _ _ _ _ E2 Hin) as (? & ? & ? & ?). auto. }
  destruct (strict_eq ty "ice-candidate"); [| intros Hin; by apply elem_of_nil in Hin].
  rewrite sends_app, elem_of_app. intros [Hin | Hin].
  - destruct (strict_eq role0 "viewer" && sender_open cs g) eqn:E3;
      [| by apply elem_of_nil in Hin].
    destruct (send_to_sender_inv _ _ _ _ _ _ E3 Hin) as (? & ? & ? & ?). auto.
  - destruct (strict_eq role0 "sender") eqn:E4; [| by apply elem_of_nil in Hin].
    destruct (send_to_viewers_inv _ _ _ _ _ _ E4 Hin) as (? & ? & ? & ?). auto.
Qed.

Lemma declare_role_sends c cs g r r' g' out t m :
  declare_role c cs g r = Returned r' g' out →
  (t, m) ∈ sends out →
  (r = JStr "sender" ∧ m = sender_connected ∧ t ∈ viewers g ∧ is_open cs t = true)
  ∨ (r = JStr "viewer" ∧ t = c ∧ m = notice_if_sender_set g).
Proof.
  rewrite declare_role_returns. intros Heq. injection Heq as <- <- <-.
  destruct (strict_eq r "sender") eqn:Hs.
  - apply strict_eq_true in Hs. simpl.
    intros (-> & Hv & Ho)%sends_send_each_open. by left.
  - destruct (strict_eq r "viewer") eqn:Hv.
    + apply strict_eq_true in Hv. simpl.
      intros Hin%list_elem_of_singleton. simplify_eq. by right.
    + intros Hin. by apply elem_of_nil in Hin.
Qed.

(** What a handler that returns has done, effects included. *)
Lemma on_message_out c role0 cs g raw r g' out :
  on_message c role0 cs g raw = Returned r g' out →
  (is_declaration raw = false ∧ r = role0 ∧ g' = g
   ∧ (out = [] ∨ ∃ ty, out = relay cs g role0 ty raw))
  ∨ (is_declaration raw = true ∧ declare_role c cs g r = Returned r g' out).
Proof.
  unfold Relay.on_message, Relay.is_declaration.
  destruct (JSON_parse raw) as [data |]; [| intros; simplify_eq; left; auto].
  destruct (get_prop data "type") as [ty |]; [| done].
  destruct (strict_eq ty "role").
  - destruct (get_prop data "role") as [r0 |]; [| done].
    intros Hd. pose proof Hd as Hd'. rewrite declare_role_returns in Hd'.
    simplify_eq. by right.
  - intros; simplify_eq. left. split_and!; [done | done | done |]. right. by eexists.
Qed.

(** Every [send] of a step: a relayed frame to a registered, open
    connection; ['sender-connected'] to an open viewer; the notice to a
    viewer that joins; ['sender-disconnected'] to an open viewer when the
    sender closes. *)
Lemma step_sends_inv w e w' out t m :
  step w e = Some (w', out) → (t, m) ∈ sends out →
  (∃ c raw, e = Message c raw ∧ is_declaration raw = false ∧ m = raw
            ∧ registered w t ∧ is_open (conns w) t = true
            ∧ ∃ st, conns w !! c = Some st
                    ∧ ((role st = JStr "viewer" ∧ sender (registry w) = Some t)
                       ∨ (role st = JStr "sender" ∧ t ∈ viewers (registry w))))
  ∨ (∃ c raw, e = Message c raw ∧ is_declaration raw = true ∧ m = sender_connected
              ∧ t ∈ viewers (registry w) ∧ is_open (conns w) t = true)
  ∨ (∃ raw, e = Message t raw ∧ is_declaration raw = true
            ∧ m = notice_if_sender_set (registry w))
  ∨ (∃ c, e = Close c ∧ m = sender_disconnected ∧ sender (registry w) = Some c
          ∧ t ≠ c ∧ t ∈ viewers (registry w) ∧ is_open (conns w) t = true).
Proof.
  intros Hstep Hin. pose proof (step_inv _ _ _ _ Hstep) as Hinv.
  destruct e as [c | c raw | c | c].
  - simpl in Hstep. destruct (conns w !! c); [done |]. simplify_eq.
    by apply elem_of_nil in Hin.
  - destruct Hinv as (st & r & g & Hc & Hcl & Hm & ->).
    apply on_message_out in Hm as [(Hd & -> & -> & Hout) | (Hd & Hdecl)].
    + destruct Hout as [-> | [ty ->]]; [by apply elem_of_nil in Hin |].
      apply relay_sends_inv in Hin as (-> & Ho & Hcase).
      left. exists c, raw. split_and!; [done | done | done | | done |].
      * unfold registered. destruct Hcase as [[_ ?] | [_ ?]]; auto.
      * by exists st.
    + destruct (declare_role_sends _ _ _ _ _ _ _ _ _ Hdecl Hin)
        as [(_ & -> & Hv & Ho) | (_ & -> & ->)].
      * right; left. by exists c, raw.
      * right; right; left. by exists raw.
  - simpl in Hstep. destruct (conns w !! c) as [st |]; [| done].
    destruct (is_OPEN (readyState st)); [| done]. simplify_eq.
    by apply elem_of_nil in Hin.
  - destruct Hinv as (st & Hc & Hcl & -> & ->).
    rewrite on_close_sends in Hin. case_bool_decide as Hs; [| by apply elem_of_nil in Hin].
    unfold to_each, open_among in Hin.
    apply list_elem_of_fmap in Hin as (v & Heq & Hv). simplify_eq.
    apply list_elem_of_filter in Hv as [Ho Hv]. apply Is_true_true in Ho.
    assert (v ≠ c) as Hne.
    { intros ->. unfold is_open in Ho. by rewrite lookup_insert_eq in Ho. }
    right; right; right. exists c. split_and!; try done.
    unfold is_open in *. by rewrite lookup_insert_ne in Ho.
Qed.

(** X1.  A declaration of role sender puts the connection in the sender
    slot, whoever held it, and leaves the viewer set as it is; each viewer
    whose connection is open is sent ['sender-connected'] once, and a
    previous sender that is no viewer is sent nothing. *)
Theorem sender_declaration_broadcast tr w c st raw data :
  reachable tr w →
  conns w !! c = Some st → closed (readyState st) = false →
  JSON_parse raw = Some data →
  get_prop data "type" = Some (JStr "role") →
  get_prop data "role" = Some (JStr "sender") →
  ∃ w' out,
    step w (Message c raw) = Some (w', out)
    ∧ sender (registry w') = Some c
    ∧ viewers (registry w') = viewers (registry w)
    ∧ role_of w' c = Some (JStr "sender")
    ∧ sends out = to_each (open_among (conns w) (viewers (registry w))) sender_connected
    ∧ NoDup (open_among (conns w) (viewers (registry w)))
    ∧ (∀ s m, sender (registry w) = Some s → s ∉ viewers (registry w) →
              (s, m) ∉ sends out).
Proof.
  intros Hreach Hc Hcl Hp Hty Hr.
  destruct (reachable_well_formed _ _ Hreach) as (Hnd & _ & _).
  rewrite (step_declaration _ _ _ _ _ _ Hc Hcl Hp Hty Hr), declare_role_returns.
  eexists _, _. split; [done |]. simpl.
  assert (sends (send_each_open (conns w) (viewers (registry w)) sender_connected)
          = to_each (open_among (conns w) (viewers (registry w))) sender_connected)
    as Hsends by (by rewrite send_each_open_filter, sends_fmap_Send).
  split_and!; [done | done | | done | by apply NoDup_filter |].
  - unfold role_of; simpl. by rewrite lookup_insert_eq.
  - intros s m _ Hs Hin. apply sends_send_each_open in Hin as (_ & Hv & _). done.
Qed.

(** X2.  A declaration whose role is neither ['sender'] nor ['viewer'] (a
    missing role reads as [undefined]) binds [role] to that value, sends
    nothing and leaves the registry as it is. *)
Theorem unrecognised_role_declaration w c st raw data r :
  conns w !! c = Some st → closed (readyState st) = false →
  JSON_parse raw = Some data →
  get_prop data "type" = Some (JStr "role") →
  get_prop data "role" = Some r →
  r ≠ JStr "sender" → r ≠ JStr "viewer" →
  step w (Message c raw)
  = Some (mkWorld (registry w) (<[c := mkConn r (readyState st)]> (conns w)), []).
Proof.
  intros Hc Hcl Hp Hty Hr Hs Hv.
  rewrite (step_declaration _ _ _ _ _ _ Hc Hcl Hp Hty Hr), declare_role_returns.
  apply strict_eq_false in Hs, Hv. unfold register_as. by rewrite Hs, Hv.
Qed.

(** X3.  From a connection whose role is neither ['sender'] nor
    ['viewer'], whatever else it is, a message that is no declaration is
    sent to nobody and changes nothing. *)
Theorem non_peer_message_dropped w c st raw data ty :
  conns w !! c = Some st → closed (readyState st) = false →
  role st ≠ JStr "sender" → role st ≠ JStr "viewer" →
  JSON_parse raw = Some data → get_prop data "type" = Some ty →
  ty ≠ JStr "role" →
  step w (Message c raw) = Some (w, []).
Proof.
  intros Hc Hcl Hs Hv Hp Hty Hne.
  rewrite (step_relay _ _ _ _ _ _ Hc Hcl Hp Hty Hne). do 2 f_equal.
  apply strict_eq_false in Hs, Hv. unfold relay. rewrite Hs, Hv.
  rewrite !andb_false_r. simpl. by destruct (strict_eq ty "ice-candidate").
Qed.

(** X4.  A frame that parses to [null] makes the handler throw on
    [data.type], before any effect; nothing catches the exception, so the
    run has no continuation. *)
Theorem null_frame_ends_run w c st raw rest :
  conns w !! c = Some st → closed (readyState st) = false →
  JSON_parse raw = Some JNull →
  on_message c (role st) (conns w) (registry w) raw = Threw
  ∧ step w (Message c raw) = None
  ∧ run w (Message c raw :: rest) = None.
Proof.
  intros Hc Hcl Hp.
  assert (step w (Message c raw) = None) as Hstep.
  { rewrite (step_message _ _ _ _ Hc Hcl). by rewrite (null_frame_throws _ _ _ _ _ Hp). }
  split_and!; [by apply null_frame_throws | done |].
  cbn [Relay.run]. by rewrite Hstep.
Qed.

(** X5.  JSON that is a number, a string, a boolean or an array, and an
    object whose [type] is missing or is none of ['role'], ['offer'],
    ['answer'], ['ice-candidate'], is sent to nobody and changes nothing,
    whatever the role of the connection. *)
Theorem untyped_message_dropped w c st raw data :
  conns w !! c = Some st → closed (readyState st) = false →
  JSON_parse raw = Some data → untyped data = true →
  step w (Message c raw) = Some (w, []).
Proof.
  intros Hc Hcl Hp Hun.
  assert (∃ ty, get_prop data "type" = Some ty ∧ known_type ty = false) as (ty & Hty & Hk).
  { destruct data; simpl in *; try done; try (by exists JUndefined).
    eexists; split; [done |]. by apply negb_true_iff. }
  unfold known_type in Hk.
  apply orb_false_iff in Hk as [[[Hrole Hoffer]%orb_false_iff Hanswer]%orb_false_iff Hice].
  pose proof Hrole as Hne. apply strict_eq_false in Hne.
  rewrite (step_relay _ _ _ _ _ _ Hc Hcl Hp Hty Hne). do 2 f_equal.
  unfold relay. by rewrite Hoffer, Hanswer, Hice.
Qed.

(** X6.  In a run in which no connection declares twice, a relayed frame
    is never sent back to the connection it came from. *)
Theorem relayed_frame_not_echoed tr w c raw w' out :
  reachable tr w → (∀ c', declarations c' tr ≤ 1) →
  step w (Message c raw) = Some (w', out) →
  is_declaration raw = false →
  ∀ t m, (t, m) ∈ sends out → t ≠ c.
Proof.
  intros Hreach Hle Hstep Hnd t m Hin ->.
  destruct (single_declaration_roles_bound _ _ Hreach Hle) as [Hs Hv].
  destruct (step_sends_inv _ _ _ _ _ _ Hstep Hin)
    as [(c0 & raw0 & He & _ & _ & _ & _ & st & Hc & Hcase)
       | [(c0 & raw0 & He & Hd & _) | [(raw0 & He & Hd & _) | (c0 & He & _)]]];
    simplify_eq; try congruence.
  destruct Hcase as [[Hrole Hsl] | [Hrole Hvs]].
  - apply Hs in Hsl. unfold role_of in Hsl. rewrite Hc in Hsl. simpl in Hsl. congruence.
  - apply Hv in Hvs. unfold role_of in Hvs. rewrite Hc in Hvs. simpl in Hvs. congruence.
Qed.

(** X7.  Every [send] of a step goes to a connection whose [readyState]
    is [OPEN], but for the notice to a connection that declares itself
    viewer, which is sent without a test: there the target is the
    declaring connection, its role has become ['viewer'], and the payload
    is the notice that tells whether the sender slot is filled. *)
Theorem sends_target_open_or_joining w e w' out t m :
  step w e = Some (w', out) → (t, m) ∈ sends out →
  is_open (conns w) t = true
  ∨ ∃ raw, e = Message t raw ∧ is_declaration raw = true
           ∧ role_of w' t = Some (JStr "viewer")
           ∧ m = notice_if_sender_set (registry w).
Proof.
  intros Hstep Hin.
  destruct (step_sends_inv _ _ _ _ _ _ Hstep Hin)
    as [(c0 & raw0 & _ & _ & _ & _ & Ho & _)
       | [(c0 & raw0 & _ & _ & _ & _ & Ho)
         | [(raw0 & -> & Hd & _) | (c0 & _ & _ & _ & _ & _ & Ho)]]]; auto.
  apply step_inv in Hstep as (st & r & g & Hc & Hcl & Hm & ->).
  apply on_message_out in Hm as [(Hd' & _) | (_ & Hdecl)]; [congruence |].
  destruct (declare_role_sends _ _ _ _ _ _ _ _ _ Hdecl Hin)
    as [(_ & _ & _ & Ho) | (-> & _ & ->)]; [by left |].
  right. exists raw0. split_and!; [done | done | | done].
  unfold role_of; simpl. by rewrite lookup_insert_eq.
Qed.

(** X8.  Nothing is ever sent to a connection that has not declared a
    role: the target of every [send] has sent a role declaration by then. *)
Theorem sends_reach_declared_only tr w e w' out t m :
  reachable tr w → step w e = Some (w', out) → (t, m) ∈ sends out →
  1 ≤ declarations t (tr ++ [e]).
Proof.
  intros Hreach Hstep Hin.
  destruct (reachable_well_formed _ _ Hreach) as (_ & Hreg & _).
  assert (registered w t → 1 ≤ declarations t (tr ++ [e])) as Hold.
  { intros Hr. destruct (Hreg t Hr) as (? & _ & _ & Hd).
    pose proof (declarations_snoc_le t tr e). lia. }
  destruct (step_sends_inv _ _ _ _ _ _ Hstep Hin)
    as [(c0 & raw0 & _ & _ & _ & Hr & _)
       | [(c0 & raw0 & _ & _ & _ & Hv & _)
         | [(raw0 & -> & Hd & _) | (c0 & _ & _ & _ & _ & Hv & _)]]].
  - by apply Hold.
  - apply Hold. by right.
  - rewrite declarations_snoc, Hd, bool_decide_eq_true_2 by done. simpl. lia.
  - apply Hold. by right.
Qed.

(** X9.  After every run the viewer set has no duplicates, and every
    connection in the sender slot or in the viewer set is a connection
    whose ['close'] event has not fired: a closed connection is never left
    registered. *)
Theorem registered_connections_live tr w :
  reachable tr w →
  NoDup (viewers (registry w))
  ∧ ∀ c, registered w c →
         ∃ st, conns w !! c = Some st ∧ closed (readyState st) = false.
Proof.
  intros Hreach. destruct (reachable_well_formed _ _ Hreach) as (Hnd & Hreg & _).
  split; [done |]. intros c Hc. destruct (Hreg c Hc) as (st & ? & ? & _). eauto.
Qed.

(** X10.  The ['close'] of a connection removes that connection from the
    registry and no other; when it is not the current sender, nothing is
    sent and the sender slot is as before, whatever the role of the
    connection. *)
Theorem close_keeps_other_registrations w c st :
  conns w !! c = Some st → closed (readyState st) = false →
  ∃ w' out,
    step w (Close c) = Some (w', out)
    ∧ ¬ registered w' c
    ∧ (∀ c', c' ≠ c → (registered w' c' ↔ registered w c'))
    ∧ (sender (registry w) ≠ Some c →
       sends out = [] ∧ sender (registry w') = sender (registry w)).
Proof.
  intros Hc Hcl. simpl. rewrite Hc, Hcl.
  set (cs := <[c := mkConn (role st) CLOSED]> (conns w)).
  pose proof (on_close_registry c cs (registry w)) as Hg.
  pose proof (on_close_sends c cs (registry w)) as Hout.
  destruct (on_close c cs (registry w)) as [g out]. simpl in Hg, Hout. subst g.
  eexists _, _. split; [done |]. unfold registered; simpl. split_and!.
  - rewrite list_elem_of_filter. case_bool_decide; intros [? | [? _]]; done.
  - intros c' Hne. rewrite list_elem_of_filter.
    split.
    + intros [Hs | [_ Hv]]; [left | by right]. by case_bool_decide.
    + intros [Hs | Hv]; [left | right; by split].
      case_bool_decide; [congruence | done].
  - intros Hns. by rewrite Hout, !bool_decide_eq_false_2.
Qed.

(** X11.  What is sent is the frame received, unchanged, when the frame
    is no declaration; one of the two notifications when it is a
    declaration, which is itself never forwarded as such; and
    ['sender-disconnected'] on a ['close'].  Other events send nothing. *)
Theorem payload_is_frame_or_notice w e w' out t m :
  step w e = Some (w', out) → (t, m) ∈ sends out →
  match e with
  | Message c raw =>
      if is_declaration raw
      then m = sender_connected ∨ m = sender_disconnected
      else m = raw
  | Close c => m = sender_disconnected
  | Connect _ | BeginClose _ => False
  end.
Proof.
  intros Hstep Hin.
  destruct (step_sends_inv _ _ _ _ _ _ Hstep Hin)
    as [(c0 & raw0 & -> & Hd & -> & _)
       | [(c0 & raw0 & -> & Hd & -> & _)
         | [(raw0 & -> & Hd & ->) | (c0 & -> & -> & _)]]];
    rewrite ?Hd; auto.
  unfold notice_if_sender_set. destruct (sender (registry w)); auto.
Qed.

(** X12.  The registry changes only when a role declaration is processed
    or when a registered connection closes: a new connection, the start of
    a closing handshake, a relayed or dropped frame and the ['close'] of an
    unregistered connection leave the sender slot and the viewer set as
    they are. *)
Theorem registry_changes_only_by_declaration_or_close w e w' out :
  step w e = Some (w', out) → registry w' ≠ registry w →
  (∃ c raw, e = Message c raw ∧ is_declaration raw = true)
  ∨ (∃ c, e = Close c ∧ registered w c).
Proof.
  intros Hstep Hne. apply step_inv in Hstep.
  destruct e as [c | c raw | c | c].
  - destruct Hstep as [_ ->]. done.
  - destruct Hstep as (st & r & g & Hc & Hcl & Hm & ->).
    apply on_message_inv in Hm as [(_ & _ & ->) | (Hd & _)]; [done |].
    left. by exists c, raw.
  - destruct Hstep as (st & _ & _ & ->). done.
  - destruct Hstep as (st & Hc & Hcl & -> & _). right. exists c. split; [done |].
    destruct (decide (sender (registry w) = Some c)) as [Hs | Hs]; [by left |].
    destruct (decide (c ∈ viewers (registry w))) as [Hv | Hv]; [by right |].
    exfalso. apply Hne. simpl. rewrite on_close_registry.
    rewrite bool_decide_eq_false_2 by done.
    pose proof (set_delete_absent _ _ Hv) as Hd. unfold set_delete in Hd.
    simplify_eq. destruct (registry w) as [s vs]; simpl in *. congruence.
Qed.

(** X13.  The role of a connection is set when it connects and changes
    only when that connection itself sends a role declaration: no event of
    another connection touches it, and neither does its own closing. *)
Theorem role_changes_only_by_own_declaration w e w' out c :
  step w e = Some (w', out) → role_of w' c ≠ role_of w c →
  e = Connect c ∨ ∃ raw, e = Message c raw ∧ is_declaration raw = true.
Proof.
  intros Hstep Hne. apply step_inv in Hstep. destruct w as [g cs].
  destruct e as [c0 | c0 raw | c0 | c0]; simpl in *.
  - destruct Hstep as [_ ->]. destruct (decide (c0 = c)) as [-> | Hc0]; [by left |].
    exfalso. apply Hne. by apply role_of_insert_ne.
  - destruct Hstep as (st & r & g' & Hc & Hcl & Hm & ->).
    apply on_message_inv in Hm as [(_ & -> & ->) | (Hd & _)].
    + exfalso. apply Hne. by apply (role_of_insert_same g _ _ _ st).
    + destruct (decide (c0 = c)) as [-> | Hc0]; [right; by exists raw |].
      exfalso. apply Hne. by apply role_of_insert_ne.
  - destruct Hstep as (st & Hc & _ & ->).
    exfalso. apply Hne. by apply (role_of_insert_same g _ _ _ st).
  - destruct Hstep as (st & Hc & _ & -> & _).
    exfalso. apply Hne. by apply (role_of_insert_same g _ _ _ st).
Qed.

End RelayFacts.

(** ** The claims on concrete runs *)

Section RelayRuns.

Local Abbreviation step := (Relay.step Frames.parse).
Local Abbreviation run := (Relay.run Frames.parse).
Local Abbreviation reachable := (Relay.reachable Frames.parse).
Local Abbreviation declarations := (Relay.declarations Frames.parse).

(** C1 fails as stated: after connection 0 has declared viewer and then
    sender, it holds the sender slot and is in the viewer set. *)
Lemma redeclaration_breaks_exclusive :
  reachable redeclare_trace redeclare_world
  ∧ sender (registry redeclare_world) = Some 0
  ∧ 0 ∈ viewers (registry redeclare_world)
  ∧ ¬ registry_exclusive redeclare_world.
Proof.
  split_and!; [apply redeclare_reachable | done | by apply list_elem_of_here |].
  intros (_ & Hex & _). apply (Hex 0). split; [done | by apply list_elem_of_here].
Qed.

Lemma single_declaration_registry_exclusive_witness :
  reachable pair_trace pair_world
  ∧ (∀ c, declarations c pair_trace ≤ 1)
  ∧ registry_exclusive pair_world.
Proof.
  assert (reachable pair_trace pair_world) as Hreach
    by (eexists; vm_compute; reflexivity).
  assert (∀ c, declarations c pair_trace ≤ 1) as Hle.
  { intros c. unfold pair_trace; simpl. repeat case_bool_decide; simpl; lia. }
  split_and!; [exact Hreach | exact Hle |].
  exact (single_declaration_registry_exclusive Frames.parse _ _ Hreach Hle).
Defined.

(** C2 fails as stated: the sender 0 is closing, hence not open, and the
    viewer that joins is told ['sender-connected']. *)
Lemma viewer_notice_ignores_socket_state :
  reachable closing_trace closing_world
  ∧ sender (registry closing_world) = Some 0
  ∧ is_open (conns closing_world) 0 = false
  ∧ notice_if_sender_open (conns closing_world) (registry closing_world)
    = sender_disconnected
  ∧ (∃ w' out,
       step closing_world (Message 1 Frames.role_viewer) = Some (w', out)
       ∧ sends out = [(1, sender_connected)])
  ∧ sender_connected ≠ sender_disconnected.
Proof.
  split_and!; [apply closing_reachable | done | done | done | | done].
  eexists _, _. split; [vm_compute; reflexivity | done].
Qed.

Lemma viewer_declaration_notice_witness :
  conns closing_world !! 1 = Some (mkConn (JStr "unknown") OPEN)
  ∧ closed OPEN = false
  ∧ Frames.parse Frames.role_viewer
    = Some (JObj [("type", JStr "role"); ("role", JStr "viewer")])
  ∧ ∃ w' out,
      step closing_world (Message 1 Frames.role_viewer) = Some (w', out)
      ∧ sends out = [(1, notice_if_sender_set (registry closing_world))]
      ∧ role_of w' 1 = Some (JStr "viewer")
      ∧ registry w'
        = mkRegistry (sender (registry closing_world))
            (set_add 1 (viewers (registry closing_world))).
Proof.
  split_and!; [reflexivity | reflexivity | reflexivity |].
  apply (viewer_declaration_notice Frames.parse closing_world 1
           (mkConn (JStr "unknown") OPEN) Frames.role_viewer
           (JObj [("type", JStr "role"); ("role", JStr "viewer")]));
    reflexivity.
Defined.



Lemma sender_payload_to_open_viewers_witness :
  reachable pair_trace pair_world
  ∧ conns pair_world !! 0 = Some (mkConn (JStr "sender") OPEN)
  ∧ Frames.parse Frames.answer
    = Some (JObj [("type", JStr "answer"); ("sdp", JStr "Y")])
  ∧ ∃ out,
      step pair_world (Message 0 Frames.answer) = Some (pair_world, out)
      ∧ out = (λ v, Send v Frames.answer)
                <$> open_among (conns pair_world) (viewers (registry pair_world))
      ∧ sends out
        = to_each (open_among (conns pair_world) (viewers (registry pair_world)))
            Frames.answer
      ∧ NoDup (open_among (conns pair_world) (viewers (registry pair_world))).
Proof.
  assert (reachable pair_trace pair_world) as Hreach
    by (eexists; vm_compute; reflexivity).
  split_and!; [exact Hreach | reflexivity | reflexivity |].
  apply (sender_payload_to_open_viewers Frames.parse pair_trace pair_world 0
           (mkConn (JStr "sender") OPEN) Frames.answer
           (JObj [("type", JStr "answer"); ("sdp", JStr "Y")]) (JStr "answer"));
    [exact Hreach | reflexivity | reflexivity | reflexivity | reflexivity
    | reflexivity | left; reflexivity].
Defined.

Lemma viewer_payload_to_open_sender_witness :
  conns pair_world !! 1 = Some (mkConn (JStr "viewer") OPEN)
  ∧ Frames.parse Frames.offer
    = Some (JObj [("type", JStr "offer"); ("sdp", JStr "X")])
  ∧ ∃ out,
      step pair_world (Message 1 Frames.offer) = Some (pair_world, out)
      ∧ out = match sender (registry pair_world) with
              | Some s =>
                  if is_open (conns pair_world) s then [Send s Frames.offer] else []
              | None => []
              end.
Proof.
  split_and!; [reflexivity | reflexivity |].
  apply (viewer_payload_to_open_sender Frames.parse pair_world 1
           (mkConn (JStr "viewer") OPEN) Frames.offer
           (JObj [("type", JStr "offer"); ("sdp", JStr "X")]) (JStr "offer"));
    [reflexivity | reflexivity | reflexivity | reflexivity | reflexivity
    | left; reflexivity].
Defined.

Lemma inconsistent_message_dropped_witness :
  conns fresh_world !! 0 = Some (mkConn (JStr "unknown") OPEN)
  ∧ Frames.parse Frames.offer
    = Some (JObj [("type", JStr "offer"); ("sdp", JStr "X")])
  ∧ JStr "offer" ≠ JStr "role"
  ∧ step fresh_world (Message 0 Frames.offer) = Some (fresh_world, []).
Proof.
  split_and!; [reflexivity | reflexivity | discriminate |].
  apply (inconsistent_message_dropped Frames.parse fresh_world 0
           (mkConn (JStr "unknown") OPEN) Frames.offer
           (JObj [("type", JStr "offer"); ("sdp", JStr "X")]) (JStr "offer"));
    [reflexivity | reflexivity | reflexivity | reflexivity
    | right; right; split; [discriminate | reflexivity]].
Defined.

(** C7, a defect of the code.  A malformed frame is to be dropped in
    silence, the connection staying open.  The code does so when
    [JSON.parse] throws, as on [garbage]; but the frame [null], which is
    no message of the protocol either, parses, and the read of
    [data.type], which is outside the [try], throws: the handler does not
    return and the event loop has no next state. *)
Theorem malformed_null_frame_not_dropped :
  reachable pair_trace pair_world
  ∧ step pair_world (Message 1 Frames.garbage) = Some (pair_world, [])
  ∧ Frames.parse Frames.null = Some JNull
  ∧ Relay.on_message Frames.parse 1 (JStr "viewer") (conns pair_world)
      (registry pair_world) Frames.null = Threw
  ∧ step pair_world (Message 1 Frames.null) = None
  ∧ step pair_world (Message 1 Frames.null) ≠ Some (pair_world, []).
Proof.
  split_and!.
  - apply pair_reachable.
  - apply (unparseable_frame_dropped Frames.parse pair_world 1
             (mkConn (JStr "viewer") OPEN) Frames.garbage); reflexivity.
  - reflexivity.
  - reflexivity.
  - vm_compute. reflexivity.
  - vm_compute. discriminate.
Qed.

(** C8 fails as stated.  Connection 0 is in the viewer set (and holds the
    sender slot); when it closes, viewer 1 is sent a notification.  And a
    connection whose role is ['unknown'] again after a declaration of
    viewer is still in the viewer set; when it closes, the registry
    changes. *)
Lemma closing_viewer_can_notify :
  (reachable overlap_trace overlap_world
   ∧ 0 ∈ viewers (registry overlap_world)
   ∧ ∃ w' out,
       step overlap_world (Close 0) = Some (w', out)
       ∧ sends out = [(1, sender_disconnected)]
       ∧ viewers (registry w') = [1])
  ∧ (reachable relapse_trace relapse_world
     ∧ role_of relapse_world 0 = Some (JStr "unknown")
     ∧ ∃ w' out,
         step relapse_world (Close 0) = Some (w', out)
         ∧ registry w' ≠ registry relapse_world).
Proof.
  split; split_and!.
  - apply overlap_reachable.
  - apply list_elem_of_further, list_elem_of_here.
  - eexists _, _. split; [vm_compute; reflexivity | done].
  - apply relapse_reachable.
  - done.
  - eexists _, _. split; [vm_compute; reflexivity | done].
Qed.

Lemma close_updates_registry_witness :
  reachable pair_trace pair_world
  ∧ conns pair_world !! 0 = Some (mkConn (JStr "sender") OPEN)
  ∧ closed OPEN = false
  ∧ ∃ w' out,
      step pair_world (Close 0) = Some (w', out)
      ∧ sender (registry w') = None
      ∧ sends out
        = to_each (open_among (conns w') (viewers (registry pair_world)))
            sender_disconnected.
Proof.
  assert (reachable pair_trace pair_world) as Hreach
    by (eexists; vm_compute; reflexivity).
  split_and!; [exact Hreach | reflexivity | reflexivity |].
  destruct (close_updates_registry Frames.parse pair_trace pair_world 0
              (mkConn (JStr "sender") OPEN) Hreach eq_refl eq_refl)
    as (w' & out & Hstep & _ & _ & Hsender & _).
  exists w', out. destruct (Hsender eq_refl) as (Hs & Hout & _). by split_and!.
Defined.

(** *** The scenarios of the wire protocol *)

(** A viewer that joins when no sender is present is told
    ['sender-disconnected']. *)
Example scenario_viewer_joins_alone :
  snd <$> run init [Connect 1; Message 1 Frames.role_viewer]
  = Some [ConsoleLog LogClientConnected; ConsoleLog (LogViewerConnected 1);
          Send 1 sender_disconnected].
Proof. vm_compute. reflexivity. Qed.

(** Viewer 1 is connected; sender 0 declares, 1 offers, 0 answers, 0
    closes. *)
Example scenario_negotiation :
  (sends ∘ snd) <$> run init
    [Connect 1; Message 1 Frames.role_viewer; Connect 0;
     Message 0 Frames.role_sender; Message 1 Frames.offer;
     Message 0 Frames.answer; Close 0]
  = Some [(1, sender_disconnected); (1, sender_connected); (0, Frames.offer);
          (1, Frames.answer); (1, sender_disconnected)].
Proof. vm_compute. reflexivity. Qed.

(** The frame [null] ends the run: its handler throws. *)
Example scenario_null_frame :
  step pair_world (Message 1 Frames.null) = None.
Proof. vm_compute. reflexivity. Qed.

End RelayRuns.

(** ** The further properties on concrete runs *)

Section RelayMoreRuns.

Local Abbreviation step := (Relay.step MoreFrames.parse).
Local Abbreviation run := (Relay.run MoreFrames.parse).
Local Abbreviation reachable := (Relay.reachable MoreFrames.parse).
Local Abbreviation declarations := (Relay.declarations MoreFrames.parse).
Local Abbreviation is_declaration := (Relay.is_declaration MoreFrames.parse).

Lemma sender_declaration_broadcast_witness :
  reachable waiting_trace waiting_world
  ∧ conns waiting_world !! 0 = Some (mkConn (JStr "unknown") OPEN)
  ∧ MoreFrames.parse Frames.role_sender
    = Some (JObj [("type", JStr "role"); ("role", JStr "sender")])
  ∧ ∃ w' out,
      step waiting_world (Message 0 Frames.role_sender) = Some (w', out)
      ∧ sender (registry w') = Some 0
      ∧ sends out = [(1, sender_connected)].
Proof.
  assert (reachable waiting_trace waiting_world) as Hreach
    by (eexists; vm_compute; reflexivity).
  split_and!; [exact Hreach | reflexivity | reflexivity |].
  destruct (sender_declaration_broadcast MoreFrames.parse waiting_trace waiting_world 0
              (mkConn (JStr "unknown") OPEN) Frames.role_sender
              (JObj [("type", JStr "role"); ("role", JStr "sender")])
              Hreach eq_refl eq_refl eq_refl eq_refl eq_refl)
    as (w' & out & Hstep & Hs & _ & _ & Hout & _).
  exists w', out. split_and!; [exact Hstep | exact Hs | exact Hout].
Defined.

Lemma unrecognised_role_declaration_witness :
  conns fresh_world !! 0 = Some (mkConn (JStr "unknown") OPEN)
  ∧ MoreFrames.parse MoreFrames.bare_role = Some (JObj [("type", JStr "role")])
  ∧ get_prop (JObj [("type", JStr "role")]) "role" = Some JUndefined
  ∧ step fresh_world (Message 0 MoreFrames.bare_role)
    = Some (mkWorld (registry fresh_world)
              (<[0 := mkConn JUndefined OPEN]> (conns fresh_world)), []).
Proof.
  split_and!; [reflexivity | reflexivity | reflexivity |].
  apply (unrecognised_role_declaration MoreFrames.parse fresh_world 0
           (mkConn (JStr "unknown") OPEN) MoreFrames.bare_role
           (JObj [("type", JStr "role")]) JUndefined);
    [reflexivity | reflexivity | reflexivity | reflexivity | reflexivity
    | discriminate | discriminate].
Defined.

Lemma non_peer_message_dropped_witness :
  reachable roleless_trace roleless_world
  ∧ conns roleless_world !! 0 = Some (mkConn JUndefined OPEN)
  ∧ MoreFrames.parse Frames.offer
    = Some (JObj [("type", JStr "offer"); ("sdp", JStr "X")])
  ∧ step roleless_world (Message 0 Frames.offer) = Some (roleless_world, []).
Proof.
  split_and!; [eexists; vm_compute; reflexivity | reflexivity | reflexivity |].
  apply (non_peer_message_dropped MoreFrames.parse roleless_world 0
           (mkConn JUndefined OPEN) Frames.offer
           (JObj [("type", JStr "offer"); ("sdp", JStr "X")]) (JStr "offer"));
    [reflexivity | reflexivity | discriminate | discriminate | reflexivity
    | reflexivity | discriminate].
Defined.

Lemma null_frame_ends_run_witness :
  conns pair_world !! 1 = Some (mkConn (JStr "viewer") OPEN)
  ∧ MoreFrames.parse Frames.null = Some JNull
  ∧ step pair_world (Message 1 Frames.null) = None
  ∧ run pair_world [Message 1 Frames.null; Message 1 Frames.offer] = None.
Proof.
  destruct (null_frame_ends_run MoreFrames.parse pair_world 1
              (mkConn (JStr "viewer") OPEN) Frames.null [Message 1 Frames.offer]
              eq_refl eq_refl eq_refl)
    as (_ & Hstep & Hrun).
  split_and!; [reflexivity | reflexivity | exact Hstep | exact Hrun].
Defined.

Lemma untyped_message_dropped_witness :
  conns pair_world !! 0 = Some (mkConn (JStr "sender") OPEN)
  ∧ MoreFrames.parse MoreFrames.number = Some (JNum "42")
  ∧ MoreFrames.parse MoreFrames.ping = Some (JObj [("type", JStr "ping")])
  ∧ step pair_world (Message 0 MoreFrames.number) = Some (pair_world, [])
  ∧ step pair_world (Message 0 MoreFrames.ping) = Some (pair_world, []).
Proof.
  split_and!; [reflexivity | reflexivity | reflexivity | |].
  - apply (untyped_message_dropped MoreFrames.parse pair_world 0
             (mkConn (JStr "sender") OPEN) MoreFrames.number (JNum "42"));
      reflexivity.
  - apply (untyped_message_dropped MoreFrames.parse pair_world 0
             (mkConn (JStr "sender") OPEN) MoreFrames.ping
             (JObj [("type", JStr "ping")]));
      reflexivity.
Defined.

Lemma relayed_frame_not_echoed_witness :
  reachable pair_trace pair_world
  ∧ (∀ c, declarations c pair_trace ≤ 1)
  ∧ step pair_world (Message 1 Frames.offer)
    = Some (pair_world, [Send 0 Frames.offer])
  ∧ is_declaration Frames.offer = false
  ∧ ∀ t m, (t, m) ∈ sends [Send 0 Frames.offer] → t ≠ 1.
Proof.
  assert (reachable pair_trace pair_world) as Hreach
    by (eexists; vm_compute; reflexivity).
  assert (∀ c, declarations c pair_trace ≤ 1) as Hle.
  { intros c. unfold pair_trace; simpl. repeat case_bool_decide; simpl; lia. }
  assert (step pair_world (Message 1 Frames.offer)
          = Some (pair_world, [Send 0 Frames.offer])) as Hstep
    by (vm_compute; reflexivity).
  split_and!; [exact Hreach | exact Hle | exact Hstep | reflexivity |].
  exact (relayed_frame_not_echoed MoreFrames.parse pair_trace pair_world 1
           Frames.offer pair_world [Send 0 Frames.offer] Hreach Hle Hstep eq_refl).
Defined.

Lemma sends_target_open_or_joining_witness :
  step pair_world (Message 0 Frames.answer)
  = Some (pair_world, [Send 1 Frames.answer])
  ∧ (1, Frames.answer) ∈ sends [Send 1 Frames.answer]
  ∧ (is_open (conns pair_world) 1 = true
     ∨ ∃ raw, Message 0 Frames.answer = Message 1 raw ∧ is_declaration raw = true
              ∧ role_of pair_world 1 = Some (JStr "viewer")
              ∧ Frames.answer = notice_if_sender_set (registry pair_world)).
Proof.
  assert (step pair_world (Message 0 Frames.answer)
          = Some (pair_world, [Send 1 Frames.answer])) as Hstep
    by (vm_compute; reflexivity).
  assert ((1, Frames.answer) ∈ sends [Send 1 Frames.answer]) as Hin
    by apply list_elem_of_here.
  split_and!; [exact Hstep | exact Hin |].
  exact (sends_target_open_or_joining MoreFrames.parse pair_world
           (Message 0 Frames.answer) pair_world [Send 1 Frames.answer] 1
           Frames.answer Hstep Hin).
Defined.

Lemma sends_reach_declared_only_witness :
  reachable pair_trace pair_world
  ∧ step pair_world (Message 1 Frames.offer)
    = Some (pair_world, [Send 0 Frames.offer])
  ∧ (0, Frames.offer) ∈ sends [Send 0 Frames.offer]
  ∧ 1 ≤ declarations 0 (pair_trace ++ [Message 1 Frames.offer]).
Proof.
  assert (reachable pair_trace pair_world) as Hreach
    by (eexists; vm_compute; reflexivity).
  assert (step pair_world (Message 1 Frames.offer)
          = Some (pair_world, [Send 0 Frames.offer])) as Hstep
    by (vm_compute; reflexivity).
  assert ((0, Frames.offer) ∈ sends [Send 0 Frames.offer]) as Hin
    by apply list_elem_of_here.
  split_and!; [exact Hreach | exact Hstep | exact Hin |].
  exact (sends_reach_declared_only MoreFrames.parse pair_trace pair_world
           (Message 1 Frames.offer) pair_world [Send 0 Frames.offer] 0
           Frames.offer Hreach Hstep Hin).
Defined.

Lemma registered_connections_live_witness :
  reachable displaced_trace displaced_world
  ∧ NoDup (viewers (registry displaced_world))
  ∧ ∀ c, registered displaced_world c →
         ∃ st, conns displaced_world !! c = Some st ∧ closed (readyState st) = false.
Proof.
  assert (reachable displaced_trace displaced_world) as Hreach
    by (eexists; vm_compute; reflexivity).
  split; [exact Hreach |].
  exact (registered_connections_live MoreFrames.parse displaced_trace
           displaced_world Hreach).
Defined.

Lemma close_keeps_other_registrations_witness :
  conns displaced_world !! 0 = Some (mkConn (JStr "sender") OPEN)
  ∧ sender (registry displaced_world) ≠ Some 0
  ∧ ∃ w' out,
      step displaced_world (Close 0) = Some (w', out)
      ∧ sends out = []
      ∧ sender (registry w') = Some 2.
Proof.
  assert (sender (registry displaced_world) ≠ Some 0) as Hns by discriminate.
  split_and!; [reflexivity | exact Hns |].
  destruct (close_keeps_other_registrations MoreFrames.parse displaced_world 0
              (mkConn (JStr "sender") OPEN) eq_refl eq_refl)
    as (w' & out & Hstep & _ & _ & Hsilent).
  destruct (Hsilent Hns) as [Hout Hs].
  exists w', out. split_and!; [exact Hstep | exact Hout | exact Hs].
Defined.

Lemma payload_is_frame_or_notice_witness :
  step pair_world (Message 0 Frames.answer)
  = Some (pair_world, [Send 1 Frames.answer])
  ∧ (1, Frames.answer) ∈ sends [Send 1 Frames.answer]
  ∧ (if is_declaration Frames.answer
     then Frames.answer = sender_connected ∨ Frames.answer = sender_disconnected
     else Frames.answer = Frames.answer).
Proof.
  assert (step pair_world (Message 0 Frames.answer)
          = Some (pair_world, [Send 1 Frames.answer])) as Hstep
    by (vm_compute; reflexivity).
  assert ((1, Frames.answer) ∈ sends [Send 1 Frames.answer]) as Hin
    by apply list_elem_of_here.
  split_and!; [exact Hstep | exact Hin |].
  exact (payload_is_frame_or_notice MoreFrames.parse pair_world
           (Message 0 Frames.answer) pair_world [Send 1 Frames.answer] 1
           Frames.answer Hstep Hin).
Defined.

Lemma registry_changes_only_by_declaration_or_close_witness :
  (∃ out, step viewer_world (Message 0 Frames.role_sender)
          = Some (redeclare_world, out))
  ∧ registry redeclare_world ≠ registry viewer_world
  ∧ ((∃ c raw, Message 0 Frames.role_sender = Message c raw
               ∧ is_declaration raw = true)
     ∨ (∃ c, Message 0 Frames.role_sender = Close c ∧ registered viewer_world c)).
Proof.
  assert (step viewer_world (Message 0 Frames.role_sender)
          = Some (redeclare_world,
                  [ConsoleLog LogSenderConnected; Send 0 sender_connected])) as Hstep
    by (vm_compute; reflexivity).
  assert (registry redeclare_world ≠ registry viewer_world) as Hne by discriminate.
  split_and!; [by eexists | exact Hne |].
  exact (registry_changes_only_by_declaration_or_close MoreFrames.parse viewer_world
           (Message 0 Frames.role_sender) redeclare_world _ Hstep Hne).
Defined.

Lemma role_changes_only_by_own_declaration_witness :
  (∃ out, step viewer_world (Message 0 Frames.role_sender)
          = Some (redeclare_world, out))
  ∧ role_of redeclare_world 0 ≠ role_of viewer_world 0
  ∧ (Message 0 Frames.role_sender = Connect 0
     ∨ ∃ raw, Message 0 Frames.role_sender = Message 0 raw
              ∧ is_declaration raw = true).
Proof.
  assert (step viewer_world (Message 0 Frames.role_sender)
          = Some (redeclare_world,
                  [ConsoleLog LogSenderConnected; Send 0 sender_connected])) as Hstep
    by (vm_compute; reflexivity).
  assert (role_of redeclare_world 0 ≠ role_of viewer_world 0) as Hne by discriminate.
  split_and!; [by eexists | exact Hne |].
  exact (role_changes_only_by_own_declaration MoreFrames.parse viewer_world
           (Message 0 Frames.role_sender) redeclare_world _ 0 Hstep Hne).
Defined.

End RelayMoreRuns.

(** * Properties of the controller *)

Section SupervisorFacts.

Import Supervisor.

(** The controller once it has booted: the signaling server is child 0,
    no streamer runs. *)
Lemma boot_starts_signaling :
  startSignalingServer boot
  = (mkState (Some 0) None 1,
     [ConsoleLog LogStartingSignaling; Spawn "node" ["signaling/server.js"] 0]).
Proof. reflexivity. Qed.


Lemma post_start_stopped s :
  streamerProcess s = None →
  post_start s =
    (mkState (signalingServer s) (Some (spawned s)) (S (spawned s)),
     [ConsoleLog LogStartingStreamer;
      Spawn "python3" ["src/webrtc_streamer.py"] (spawned s);
      Respond (Reply true "started")]).
Proof. intros Hs. unfold post_start. by rewrite Hs. Qed.



(** C10.  With no streamer tracked, [/start] answers
    [{ok: true, status: 'started'}] whatever becomes of the spawn: the
    answer is sent before any event of the child.  When the spawn fails,
    the ['error'] handler logs the error and resets [streamerProcess]; it
    sends no response, so the failure never shows in the answer to
    [/start]. *)
Theorem start_answers_before_spawn_outcome s err :
  streamerProcess s = None →
  responses (post_start s).2 = [Reply true "started"]
  ∧ (∃ p, streamerProcess (post_start s).1 = Some p ∧ spawns (post_start s).2 = [p])
  ∧ ∃ s' out,
      handle_all s [PostStart; StreamerError err] = (s', out)
      ∧ out = (post_start s).2 ++ [ConsoleLog (LogStreamerError err)]
      ∧ responses out = [Reply true "started"]
      ∧ streamerProcess s' = None
      ∧ responses (post_start s').2 = [Reply true "started"].
Proof.
  intros Hs. cbn [handle_all handle]. rewrite (post_start_stopped s Hs). simpl.
  split_and!; [done | by eexists |].
  eexists _, _. by split_and!.
Qed.

Lemma start_answers_before_spawn_outcome_witness :
  streamerProcess (mkState (Some 0) None 1) = None
  ∧ responses (post_start (mkState (Some 0) None 1)).2 = [Reply true "started"]
  ∧ ∃ s' out,
      handle_all (mkState (Some 0) None 1) [PostStart; StreamerError "ENOENT"]
      = (s', out)
      ∧ responses out = [Reply true "started"]
      ∧ streamerProcess s' = None.
Proof.
  destruct (start_answers_before_spawn_outcome (mkState (Some 0) None 1) "ENOENT")
    as (Hresp & _ & s' & out & Hrun & _ & Hout & Hproc & _); [reflexivity |].
  split_and!; [reflexivity | exact Hresp |].
  by exists s', out.
Defined.

(** [/stop] with no streamer running answers ['not-running'] and neither
    spawns nor kills. *)
Example scenario_stop_when_stopped :
  post_stop (mkState (Some 0) None 1)
  = (mkState (Some 0) None 1, [Respond (Reply true "not-running")]).
Proof. reflexivity. Qed.

(** ** Further properties of the controller *)

Import SupervisorSpec.

Lemma kills_app out1 out2 : kills (out1 ++ out2) = kills out1 ++ kills out2.
Proof.
  induction out1 as [| [] out1 IH]; simpl; try done. by rewrite IH.
Qed.

Lemma responses_app out1 out2 : responses (out1 ++ out2) = responses out1 ++ responses out2.
Proof.
  induction out1 as [| [] out1 IH]; simpl; try done. by rewrite IH.
Qed.

Lemma spawn_commands_app out1 out2 :
  spawn_commands (out1 ++ out2) = spawn_commands out1 ++ spawn_commands out2.
Proof.
  induction out1 as [| [] out1 IH]; simpl; try done. by rewrite IH.
Qed.

Lemma handle_all_cons s e es :
  handle_all s (e :: es) =
    ((handle_all (handle s e).1 es).1, (handle s e).2 ++ (handle_all (handle s e).1 es).2).
Proof.
  simpl. destruct (handle s e) as [s1 out1]. simpl.
  by destruct (handle_all s1 es) as [s2 out2].
Qed.

(** X14.  Two [/stop] in a row signal at most one child, the streamer
    tracked at the first, with [SIGINT]; the first answers ['stopping'] if
    there was one and ['not-running'] if not, the second answers
    ['not-running']; nothing is spawned and the signaling server is left
    alone. *)
Theorem stop_twice_kills_once s :
  ∃ s' out,
    handle_all s [PostStop; PostStop] = (s', out)
    ∧ streamerProcess s' = None
    ∧ signalingServer s' = signalingServer s
    ∧ kills out = match streamerProcess s with
                  | Some p => [(p, "SIGINT")]
                  | None => []
                  end
    ∧ responses out
      = [Reply true (match streamerProcess s with
                     | Some _ => "stopping"
                     | None => "not-running"
                     end);
         Reply true "not-running"]
    ∧ spawns out = [].
Proof.
  destruct s as [sig [p |] n]; simpl; eexists _, _; by split_and!.
Qed.

(** X15.  With no streamer tracked, [/start] followed by [/stop] signals
    exactly the child that [/start] spawned, answers ['started'] and
    ['stopping'], and leaves no streamer tracked. *)
Theorem start_stop_round_trip s :
  streamerProcess s = None →
  ∃ s' out p,
    handle_all s [PostStart; PostStop] = (s', out)
    ∧ spawns out = [p]
    ∧ kills out = [(p, "SIGINT")]
    ∧ responses out = [Reply true "started"; Reply true "stopping"]
    ∧ streamerProcess s' = None
    ∧ signalingServer s' = signalingServer s.
Proof.
  destruct s as [sig [p |] n]; [done |]. intros _. simpl.
  eexists _, _, _. by split_and!.
Qed.

(** X16.  The ['exit'] handler of a streamer clears [streamerProcess]
    whichever child the variable holds.  After [/stop] and [/start], one
    ['exit'] event (the stopped child has the handler too) leaves no
    streamer tracked, and the next [/start] answers ['started'] and spawns
    a second child while the first was never signalled. *)
Theorem exit_untracks_replacement s p code :
  streamerProcess s = Some p → p < spawned s →
  ∃ s' out p1 p2,
    handle_all s [PostStop; PostStart; StreamerExit code; PostStart] = (s', out)
    ∧ spawns out = [p1; p2] ∧ p1 ≠ p2
    ∧ kills out = [(p, "SIGINT")] ∧ p1 ≠ p
    ∧ responses out
      = [Reply true "stopping"; Reply true "started"; Reply true "started"]
    ∧ streamerProcess s' = Some p2.
Proof.
  destruct s as [sig [q |] n]; [| done]. simpl. intros Hq Hlt. simplify_eq.
  eexists _, _, _, _. split_and!; try done; lia.
Qed.

(** X17.  On [SIGINT] or [SIGTERM] the controller signals the streamer it
    tracks, if any, then the signaling server it tracks, if any, each with
    [SIGINT], and calls [process.exit(0)] last; it spawns nothing and
    sends no response. *)
Theorem shutdown_signals_tracked_children s :
  ∃ s' out,
    on_shutdown s = (s', out)
    ∧ kills out
      = match streamerProcess s with Some p => [(p, "SIGINT")] | None => [] end
        ++ match signalingServer s with Some q => [(q, "SIGINT")] | None => [] end
    ∧ last out = Some (ProcessExit 0)
    ∧ spawns out = [] ∧ responses out = []
    ∧ signalingServer s' = None.
Proof.
  destruct s as [[q |] [p |] n]; simpl; eexists _, _; by split_and!.
Qed.

Lemma handle_spawn_commands s e :
  Forall (λ c, c = ("python3", ["src/webrtc_streamer.py"]))
    (spawn_commands (handle s e).2)
  ∧ (signalingServer (handle s e).1 = signalingServer s
     ∨ signalingServer (handle s e).1 = None).
Proof.
  destruct e, s as [[q |] [p |] n]; simpl; split; auto using Forall_nil.
  all: by repeat constructor.
Qed.

(** X18.  No event makes the controller spawn the signaling server:
    whatever events arrive, every spawn is the Python streamer, and
    [signalingServer] keeps its child or becomes [null].  A signaling
    server that has exited is not started again. *)
Theorem events_never_spawn_signaling s es :
  Forall (λ c, c = ("python3", ["src/webrtc_streamer.py"]))
    (spawn_commands (handle_all s es).2)
  ∧ (signalingServer (handle_all s es).1 = signalingServer s
     ∨ signalingServer (handle_all s es).1 = None).
Proof.
  revert s. induction es as [| e es IH]; intros s.
  - simpl. split; [constructor | by left].
  - rewrite handle_all_cons. simpl.
    destruct (handle_spawn_commands s e) as [Hc Hs].
    destruct (IH (handle s e).1) as [IHc IHs].
    split.
    + rewrite spawn_commands_app. by apply Forall_app.
    + destruct IHs as [-> | ->]; auto.
Qed.

Lemma handle_responses s e :
  List.length (responses (handle s e).2) = (if is_request e then 1 else 0)
  ∧ Forall (λ r, match r with Reply ok _ => ok = true | Status _ _ => True end)
      (responses (handle s e).2).
Proof.
  destruct e, s as [[q |] [p |] n]; simpl; split; try done; by repeat constructor.
Qed.

(** X19.  Until it shuts down, the controller answers every HTTP request
    exactly once and answers nothing else; every answer to [/start] and
    [/stop] has [ok: true]. *)
Theorem one_response_per_request s es :
  List.length (responses (serve s es).2)
  = List.length (List.filter is_request (until_shutdown es))
  ∧ Forall (λ r, match r with Reply ok _ => ok = true | Status _ _ => True end)
      (responses (serve s es).2).
Proof.
  unfold serve. generalize (until_shutdown es) as l. clear es.
  intros l. revert s. induction l as [| e l IH]; intros s.
  - simpl. split; [done | constructor].
  - rewrite handle_all_cons. simpl. rewrite responses_app, length_app.
    destruct (handle_responses s e) as [Hl Hf].
    destruct (IH (handle s e).1) as [IHl IHf].
    split; [| by apply Forall_app].
    rewrite Hl, IHl. by destruct (is_request e).
Qed.

Lemma handle_well_tracked s e :
  well_tracked s → well_tracked (handle s e).1.
Proof.
  intros [Hlt Hne]. unfold well_tracked, tracked in *.
  destruct s as [[q |] [p |] n]; simpl in *;
    try (assert (q < n) by (apply Hlt; auto));
    try (assert (p < n) by (apply Hlt; auto));
    try (assert (q ≠ p) by (by apply Hne));
    clear Hlt Hne; destruct e; simpl;
    (split;
      [ intros x [? | ?]; simplify_eq; lia
      | intros x y ? ?; simplify_eq; first [ done | lia ] ]).
Qed.

Lemma handle_spawned_le s e : spawned s ≤ spawned (handle s e).1.
Proof. destruct e, s as [[q |] [p |] n]; simpl; lia. Qed.

Lemma handle_tracked s e p :
  tracked (handle s e).1 p → tracked s p ∨ p = spawned s.
Proof.
  unfold tracked. destruct e, s as [[q |] [p0 |] n]; simpl;
    intros [? | ?]; simplify_eq; auto.
Qed.
Lemma handle_kills s e p sig :
  well_tracked s →
  (p, sig) ∈ kills (handle s e).2 →
  sig = "SIGINT" ∧ tracked s p ∧ (e ≠ Shutdown → ¬ tracked (handle s e).1 p).
Proof.
  intros [_ Hne]. unfold tracked.
  destruct e, s as [[q |] [p0 |] n]; simpl in *;
    intros Hin; repeat (apply elem_of_cons in Hin as [Hin | Hin]);
    try (by apply elem_of_nil in Hin); simplify_eq;
    (split_and!;
      [ done | auto
      | intros ? [? | ?]; simplify_eq; try done; by eapply Hne ]).
Qed.

Lemma handle_kills_NoDup s e :
  well_tracked s → NoDup (kills (handle s e).2).*1.
Proof.
  intros [_ Hne].
  destruct e, s as [[q |] [p |] n]; simpl in *; repeat constructor;
    try (by apply not_elem_of_nil).
  intros Hin%list_elem_of_singleton. by eapply Hne.
Qed.

Lemma handle_all_spawned_le s es : spawned s ≤ spawned (handle_all s es).1.
Proof.
  revert s. induction es as [| e es IH]; intros s; [done |].
  rewrite handle_all_cons. simpl.
  etrans; [apply (handle_spawned_le s e) | apply IH].
Qed.

Lemma serve_cons s e es :
  e ≠ Shutdown →
  serve s (e :: es) =
    ((serve (handle s e).1 es).1, (handle s e).2 ++ (serve (handle s e).1 es).2).
Proof.
  intros Hne. unfold serve.
  assert (until_shutdown (e :: es) = e :: until_shutdown es) as ->
    by (by destruct e).
  apply handle_all_cons.
Qed.

Lemma serve_shutdown s es :
  serve s (Shutdown :: es) = ((handle s Shutdown).1, (handle s Shutdown).2).
Proof.
  unfold serve. simpl until_shutdown. rewrite handle_all_cons. simpl.
  by rewrite app_nil_r.
Qed.

(** X20.  From a state in which the variables hold distinct children that
    were spawned, and until the controller shuts down, no child is
    signalled twice, every signal is [SIGINT], and every child signalled
    was spawned by the controller: it was tracked at the start or spawned
    since. *)
Theorem each_child_signalled_once s es :
  well_tracked s →
  NoDup (kills (serve s es).2).*1
  ∧ ∀ p sig, (p, sig) ∈ kills (serve s es).2 →
             sig = "SIGINT" ∧ p < spawned (serve s es).1
             ∧ (tracked s p ∨ spawned s ≤ p).
Proof.
  revert s. induction es as [| e es IH]; intros s Hwt.
  { split; [constructor | intros p sig Hin; by apply elem_of_nil in Hin]. }
  pose proof Hwt as [Hlt _].
  assert (e = Shutdown ∨ e ≠ Shutdown) as [-> | Hne]
    by (destruct e; auto).
  - rewrite serve_shutdown. cbn [fst snd]. split; [by apply handle_kills_NoDup |].
    intros p sig Hin. apply (handle_kills _ _ _ _ Hwt) in Hin as (-> & Htr & _).
    pose proof (handle_spawned_le s Shutdown). specialize (Hlt p Htr).
    split_and!; [done | lia | by left].
  - rewrite (serve_cons _ _ _ Hne). cbn [fst snd].
    pose proof (handle_well_tracked s e Hwt) as Hwt1.
    pose proof (handle_spawned_le s e) as Hle1.
    pose proof (handle_all_spawned_le (handle s e).1 (until_shutdown es)) as Hle2.
    fold (serve (handle s e).1 es) in Hle2.
    destruct (IH _ Hwt1) as [IHnd IHin].
    rewrite kills_app. split.
    + rewrite fmap_app. apply NoDup_app. split_and!; [by apply handle_kills_NoDup | | done].
      intros x [[y sig] [Heq Hin1]]%list_elem_of_fmap [[z sig'] [Heq' Hin2]]%list_elem_of_fmap.
      simpl in *. subst y z.
      apply (handle_kills _ _ _ _ Hwt) in Hin1 as (_ & Htr & Hun). specialize (Hun Hne).
      destruct (IHin _ _ Hin2) as (_ & _ & [Htr1 | Hge]); [done |].
      specialize (Hlt x Htr). lia.
    + intros p sig [Hin | Hin]%elem_of_app.
      * apply (handle_kills _ _ _ _ Hwt) in Hin as (-> & Htr & _). specialize (Hlt p Htr).
        split_and!; [done | lia | by left].
      * destruct (IHin _ _ Hin) as (-> & Hlt' & Hcase).
        split_and!; [done | done |].
        destruct Hcase as [Htr1 | Hge]; [| right; lia].
        apply handle_tracked in Htr1 as [? | ->]; [by left | right; lia].
Qed.

Lemma start_stop_round_trip_witness :
  streamerProcess booted = None
  ∧ ∃ s' out p,
      handle_all booted [PostStart; PostStop] = (s', out)
      ∧ spawns out = [p]
      ∧ kills out = [(p, "SIGINT")]
      ∧ responses out = [Reply true "started"; Reply true "stopping"]
      ∧ streamerProcess s' = None
      ∧ signalingServer s' = signalingServer booted.
Proof.
  split; [reflexivity |].
  exact (start_stop_round_trip booted eq_refl).
Defined.

Lemma exit_untracks_replacement_witness :
  streamerProcess (mkState (Some 0) (Some 1) 2) = Some 1
  ∧ 1 < spawned (mkState (Some 0) (Some 1) 2)
  ∧ ∃ s' out p1 p2,
      handle_all (mkState (Some 0) (Some 1) 2)
        [PostStop; PostStart; StreamerExit (Some 130); PostStart] = (s', out)
      ∧ spawns out = [p1; p2] ∧ p1 ≠ p2
      ∧ kills out = [(1, "SIGINT")] ∧ p1 ≠ 1
      ∧ responses out
        = [Reply true "stopping"; Reply true "started"; Reply true "started"]
      ∧ streamerProcess s' = Some p2.
Proof.
  assert (1 < spawned (mkState (Some 0) (Some 1) 2)) as Hlt by (simpl; lia).
  split_and!; [reflexivity | exact Hlt |].
  exact (exit_untracks_replacement (mkState (Some 0) (Some 1) 2) 1 (Some 130)
           eq_refl Hlt).
Defined.

Lemma each_child_signalled_once_witness :
  well_tracked booted
  ∧ NoDup (kills (serve booted [PostStart; PostStop; PostStart; Shutdown; PostStop]).2).*1
  ∧ kills (serve booted [PostStart; PostStop; PostStart; Shutdown; PostStop]).2
    = [(1, "SIGINT"); (2, "SIGINT"); (0, "SIGINT")].
Proof.
  assert (well_tracked booted) as Hwt.
  { split.
    - intros p [Hp | Hp]; vm_compute in Hp; simplify_eq. vm_compute. lia.
    - intros p q _ Hq. vm_compute in Hq. discriminate. }
  split_and!; [exact Hwt | | reflexivity].
  exact (proj1 (each_child_signalled_once booted
                  [PostStart; PostStop; PostStart; Shutdown; PostStop] Hwt)).
Defined.

End SupervisorFacts.
